(** * Проверка выражений.c: the arithmetic-expression validator

    A shallow embedding of [isValidExpression] and a verification of its
    documented behaviour, followed by its [main] and by the two other
    programs of the collection: the phrase search (module [Search],
    facts in [SearchFacts]) and the gate log (module [Journal], facts
    in [JournalFacts]).

    Modelling decisions, all taken from the C source:
    - [int] is a 32-bit two's complement integer; every [++], [--] and
      the conversion of [strlen]'s result are written with [wrap];
    - [const char *expr] is a buffer of bytes ([list ascii]); a read
      outside the buffer is a [Fault], and the C string it holds is the
      run of bytes in front of the first NUL;
    - [isspace], [isdigit], [islower] are those of the "C" locale (the
      program never calls [setlocale]), so a byte above 127 belongs to
      no class;
    - the two loops are driven by a fuel counter; running out of it is
      [Timeout], and the theorems show that it never happens. *)

From Stdlib Require Import ZArith Ascii String DecimalString Bool Lia List
  Permutation.
Import ListNotations.
Local Open Scope Z_scope.

(** ** Constants of the translation unit *)

Definition MAX_EXPR_LEN : Z := 1024.
Definition BUFFER_SIZE : Z := MAX_EXPR_LEN + 2.
Definition TRUE : Z := 1.
Definition FALSE : Z := 0.

Definition INT_MIN : Z := -2147483648.
Definition INT_MAX : Z := 2147483647.

(** Reduction of a mathematical integer to the range of [int]. *)
Definition wrap (z : Z) : Z := (z - INT_MIN) mod 2 ^ 32 + INT_MIN.

Inductive State : Type :=
| STATE_EXPECT_OPERAND
| STATE_EXPECT_OPERATOR.

Definition State_eqb (a b : State) : bool :=
  match a, b with
  | STATE_EXPECT_OPERAND, STATE_EXPECT_OPERAND => true
  | STATE_EXPECT_OPERATOR, STATE_EXPECT_OPERATOR => true
  | _, _ => false
  end.

(** ** Outcomes of running C code *)

Inductive exec (A : Type) : Type :=
| Done (a : A)
| Fault
| Timeout.
Arguments Done {A} a.
Arguments Fault {A}.
Arguments Timeout {A}.

Definition bind {A B : Type} (c : exec A) (k : A -> exec B) : exec B :=
  match c with
  | Done a => k a
  | Fault => Fault
  | Timeout => Timeout
  end.

Notation "x <- c ;; k" := (bind c (fun x => k))
  (at level 61, c at next level, right associativity).

(** ** The C library functions the validator calls *)

Definition NUL : ascii := "000"%char.

Definition code (c : ascii) : Z := Z.of_N (N_of_ascii c).

Definition isspace (c : ascii) : bool :=
  (code c =? 32) || ((9 <=? code c) && (code c <=? 13)).

Definition isdigit (c : ascii) : bool :=
  (48 <=? code c) && (code c <=? 57).

Definition islower (c : ascii) : bool :=
  (97 <=? code c) && (code c <=? 122).

(** [expr[i]]: defined inside the buffer only. *)
Definition load (expr : list ascii) (i : Z) : exec ascii :=
  if (0 <=? i) && (i <? Z.of_nat (length expr))
  then Done (nth (Z.to_nat i) expr NUL)
  else Fault.

(** [strlen] walks to the first NUL; a buffer without one is overrun. *)
Fixpoint strlen (expr : list ascii) : exec nat :=
  match expr with
  | [] => Fault
  | c :: rest =>
      if (c =? NUL)%char then Done O
      else n <- strlen rest ;; Done (S n)
  end.

(** [strchr(s, c)] on a string literal [s] (given without its
    terminator): the index of the first [c]; the terminator itself is
    found when [c] is NUL. *)
Fixpoint strchr (s : list ascii) (c : ascii) : option nat :=
  match s with
  | [] => if (c =? NUL)%char then Some O else None
  | x :: s' =>
      if (x =? c)%char then Some O
      else if (x =? NUL)%char then None
      else option_map S (strchr s' c)
  end.

Definition operators : list ascii := list_ascii_of_string "+-*/%".

(** ** isValidExpression *)

(** What one pass through the loop body leads to: a [return], or the
    locals with which the loop goes on. *)
Inductive flow : Type :=
| Return (v : Z)
| Next (i : Z) (parenthesis_balance : Z) (current_state : State).

(** [while (i + 1 < len && isdigit(expr[i + 1])) i++;] *)
Fixpoint skip_digits (fuel : nat) (expr : list ascii) (len i : Z) : exec Z :=
  match fuel with
  | O => Timeout
  | S fuel' =>
      if wrap (i + 1) <? len then
        c <- load expr (wrap (i + 1)) ;;
        if isdigit c then skip_digits fuel' expr len (wrap (i + 1))
        else Done i
      else Done i
  end.

(** The [if (current_state == ...) ... else ...] statement. *)
Definition transition (fuel : nat) (expr : list ascii) (len i : Z)
    (parenthesis_balance : Z) (current_state : State)
    (current_char : ascii) : exec flow :=
  match current_state with
  | STATE_EXPECT_OPERAND =>
      if isdigit current_char then
        i' <- skip_digits fuel expr len i ;;
        Done (Next i' parenthesis_balance STATE_EXPECT_OPERATOR)
      else if islower current_char then
        Done (Next i parenthesis_balance STATE_EXPECT_OPERATOR)
      else if (current_char =? "("%char)%char then
        Done (Next i (wrap (parenthesis_balance + 1)) STATE_EXPECT_OPERAND)
      else if (current_char =? "+"%char)%char || (current_char =? "-"%char)%char then
        Done (Next i parenthesis_balance STATE_EXPECT_OPERAND)
      else Done (Return FALSE)
  | STATE_EXPECT_OPERATOR =>
      match strchr operators current_char with
      | Some _ => Done (Next i parenthesis_balance STATE_EXPECT_OPERAND)
      | None =>
          if (current_char =? ")"%char)%char then
            Done (Next i (wrap (parenthesis_balance - 1)) STATE_EXPECT_OPERATOR)
          else Done (Return FALSE)
      end
  end.

(** The body of the [for] loop. *)
Definition loop_body (fuel : nat) (expr : list ascii) (len i : Z)
    (parenthesis_balance : Z) (current_state : State) : exec flow :=
  current_char <- load expr i ;;
  if isspace current_char then
    Done (Next i parenthesis_balance current_state)
  else
    r <- transition fuel expr len i parenthesis_balance current_state
           current_char ;;
    match r with
    | Return v => Done (Return v)
    | Next i' balance' state' =>
        if balance' <? 0 then Done (Return FALSE)
        else Done (Next i' balance' state')
    end.

(** [for (...; i < len; ++i) body]: ends in a [return] of the body or,
    when the condition fails, in the locals at the exit. *)
Fixpoint for_loop (fuel : nat) (expr : list ascii) (len i : Z)
    (parenthesis_balance : Z) (current_state : State) : exec flow :=
  match fuel with
  | O => Timeout
  | S fuel' =>
      if i <? len then
        r <- loop_body fuel' expr len i parenthesis_balance current_state ;;
        match r with
        | Return v => Done (Return v)
        | Next i' balance' state' =>
            for_loop fuel' expr len (wrap (i' + 1)) balance' state'
        end
      else Done (Next i parenthesis_balance current_state)
  end.

(** The scan: everything in front of the final checks. *)
Definition scan (fuel : nat) (expr : list ascii) : exec flow :=
  n <- strlen expr ;;
  for_loop fuel expr (wrap (Z.of_nat n)) 0 0 STATE_EXPECT_OPERAND.

Definition isValidExpression_fuel (fuel : nat) (expr : list ascii) : exec Z :=
  r <- scan fuel expr ;;
  match r with
  | Return v => Done v
  | Next _ parenthesis_balance current_state =>
      if (parenthesis_balance =? 0)
         && State_eqb current_state STATE_EXPECT_OPERATOR
      then Done TRUE
      else Done FALSE
  end.

(** One unit of fuel per byte of the buffer is more than the loops use. *)
Definition isValidExpression (expr : list ascii) : exec Z :=
  isValidExpression_fuel (S (length expr)) expr.

(** A string literal as C stores it: the characters and a NUL. *)
Definition lit (s : string) : list ascii := list_ascii_of_string s ++ [NUL].

(** ** The automaton behind the loop

    The loop reads as a three-mode automaton over the characters of the
    string: [Digits] is [STATE_EXPECT_OPERATOR] while the inner [while]
    is still swallowing the digits of a number.  It is the tool of the
    proofs below; [for_loop_ahead] ties it to the embedded code. *)

Inductive mode : Type := Operand | Operator | Digits.

Definition state_of (m : mode) : State :=
  match m with
  | Operand => STATE_EXPECT_OPERAND
  | Operator | Digits => STATE_EXPECT_OPERATOR
  end.

Definition mode_of (st : State) : mode :=
  match st with
  | STATE_EXPECT_OPERAND => Operand
  | STATE_EXPECT_OPERATOR => Operator
  end.

Definition is_operator (c : ascii) : bool :=
  match strchr operators c with Some _ => true | None => false end.

Definition is_sign (c : ascii) : bool :=
  (c =? "+"%char)%char || (c =? "-"%char)%char.

Definition after_operand (c : ascii) (bal : Z) : option (Z * mode) :=
  if is_operator c then Some (bal, Operand)
  else if (c =? ")"%char)%char then
    if bal - 1 <? 0 then None else Some (bal - 1, Operator)
  else None.

Definition step (c : ascii) (bal : Z) (m : mode) : option (Z * mode) :=
  if isspace c then Some (bal, mode_of (state_of m))
  else
    match m with
    | Operand =>
        if isdigit c then Some (bal, Digits)
        else if islower c then Some (bal, Operator)
        else if (c =? "("%char)%char then Some (bal + 1, Operand)
        else if is_sign c then Some (bal, Operand)
        else None
    | Operator => after_operand c bal
    | Digits => if isdigit c then Some (bal, Digits) else after_operand c bal
    end.

Fixpoint walk (l : list ascii) (bal : Z) (m : mode) : option (Z * mode) :=
  match l with
  | [] => Some (bal, m)
  | c :: l' =>
      match step c bal m with
      | Some (bal', m') => walk l' bal' m'
      | None => None
      end
  end.

(** How a walk that started somewhere inside a string of length [n]
    shows at the exit of the loop. *)
Definition outcome (n : Z) (o : option (Z * mode)) : flow :=
  match o with
  | Some (bal, m) => Next n bal (state_of m)
  | None => Return FALSE
  end.

Definition verdict (s : list ascii) : Z :=
  match walk s 0 Operand with
  | Some (bal, m) =>
      if (bal =? 0) && State_eqb (state_of m) STATE_EXPECT_OPERATOR
      then TRUE else FALSE
  | None => FALSE
  end.

(** ** C strings *)

Definition no_nul (s : list ascii) : bool :=
  forallb (fun c => negb (c =? NUL)%char) s.

(** [c_string expr s]: the buffer [expr] holds the characters [s], then
    a NUL, and [s] is short enough for its length to be an [int]. *)
Definition c_string (expr s : list ascii) : Prop :=
  (exists rest, expr = s ++ NUL :: rest)
  /\ no_nul s = true
  /\ Z.of_nat (length s) <= INT_MAX.

(** Number of [c]s in [l], and the surplus of '(' over ')'. *)
Definition count (c : ascii) (l : list ascii) : Z :=
  Z.of_nat (count_occ ascii_dec l c).

Definition balance (l : list ascii) : Z :=
  count "("%char l - count ")"%char l.

(** ** Vocabulary of the statements *)

(** The configurations (index, balance, state) in which control
    reaches the head of the [for] loop. *)
Inductive visits (expr : list ascii) (len : Z) : Z -> Z -> State -> Prop :=
| visits_entry : visits expr len 0 0 STATE_EXPECT_OPERAND
| visits_again (fuel : nat) (i bal : Z) (st : State)
      (i' bal' : Z) (st' : State) :
    visits expr len i bal st ->
    i < len ->
    loop_body fuel expr len i bal st = Done (Next i' bal' st') ->
    visits expr len (wrap (i' + 1)) bal' st'.

(** [s[i+1 .. i']] are digits and [s[i'+1]], if there is one, is not. *)
Definition digit_run (s : list ascii) (i i' : Z) : Prop :=
  i <= i' < Z.of_nat (length s)
  /\ (forall j, i < j <= i' -> isdigit (nth (Z.to_nat j) s NUL) = true)
  /\ (i' + 1 < Z.of_nat (length s) ->
      isdigit (nth (Z.to_nat (i' + 1)) s NUL) = false).

(** What the automaton makes of the characters of [s] from index [i]
    on, as the loop would report it. *)
Definition ahead (s : list ascii) (i bal : Z) (st : State) : flow :=
  outcome (Z.of_nat (length s))
    (walk (skipn (Z.to_nat i) s) bal (mode_of st)).

(** What the automaton has made of the characters in front of index
    [i] when the loop is at its head with [bal] and [st]. *)
Definition behind (s : list ascii) (i bal : Z) (st : State) : Prop :=
  exists m,
    walk (firstn (Z.to_nat i) s) 0 Operand = Some (bal, m)
    /\ state_of m = st
    /\ (m = Digits -> i < Z.of_nat (length s) ->
        isdigit (nth (Z.to_nat i) s NUL) = false).

(** ** main of the validator *)

Definition newline : ascii := "010"%char.

(** The characters [fgets] stores when it may store [room] of them: up
    to and including the first newline, or to the end of the stream. *)
Fixpoint fgets_chars (room : nat) (stream : list ascii) : list ascii :=
  match room, stream with
  | S room', c :: stream' =>
      if (c =? newline)%char then [c] else c :: fgets_chars room' stream'
  | _, _ => []
  end.

(** [fgets(buffer, size, stream)]: NULL at the end of the stream, else
    the written part of the buffer (the characters and a NUL) and the
    stream that is left. *)
Definition fgets (size : Z) (stream : list ascii)
    : option (list ascii * list ascii) :=
  match stream with
  | [] => None
  | _ :: _ =>
      let line := fgets_chars (Z.to_nat (size - 1)) stream in
      Some (line ++ [NUL], skipn (length line) stream)
  end.

(** [buffer[pos] = c]. *)
Fixpoint store (buffer : list ascii) (pos : nat) (c : ascii) : list ascii :=
  match buffer, pos with
  | [], _ => []
  | _ :: rest, O => c :: rest
  | x :: rest, S pos' => x :: store rest pos' c
  end.

Definition chars (s : string) : list ascii := list_ascii_of_string s.

(** What [main] prints for the value the validator returned. *)
Definition message (v : Z) : list ascii :=
  if v =? 0 then chars "incorrect" ++ [newline]
  else chars "correct" ++ [newline].

(** [main]: from the bytes on standard input to the exit status and
    the bytes on standard output. *)
Definition main (stdin : list ascii) : exec (Z * list ascii) :=
  match fgets BUFFER_SIZE stdin with
  | None => Done (0, chars "incorrect" ++ [newline])
  | Some (buffer, _) =>
      let buffer :=
        match strchr buffer newline with
        | Some newline_pos => store buffer newline_pos NUL
        | None => buffer
        end in
      v <- isValidExpression buffer ;;
      Done (0, message v)
  end.

(** The characters the validator knows. *)
Definition in_alphabet (c : ascii) : bool :=
  isspace c || isdigit c || islower c
  || existsb (Ascii.eqb c) (chars "+-*/%()").

Definition ends_in_digit (l : list ascii) : bool :=
  match rev l with c :: _ => isdigit c | [] => false end.

Definition starts_with_digit (l : list ascii) : bool :=
  match l with c :: _ => isdigit c | [] => false end.

(** * Поиск словосочетаний.c: the phrase search *)

Module Search.

Definition MAX_PHRASE_LEN : Z := 105.
Definition MAX_TEXT_LEN : Z := 2005.

(** A [char] read as an [int]; whether plain [char] is signed is the
    implementation's choice. *)
Definition int_of_char (char_signed : bool) (c : ascii) : Z :=
  if char_signed && (128 <=? code c) then code c - 256 else code c.

Definition isSeparator (c : Z) : Z :=
  let uc := c mod 256 in
  if (uc =? 32) || (uc =? 9) || (uc =? 10) || (uc =? 13) then 1 else 0.

(** A [const char *] that only moves forward is the list of the bytes
    from it to the end of its buffer: [*p] is the head, [p++] the
    tail, and there is nothing to read behind the buffer. *)
Definition deref (p : list ascii) : exec ascii :=
  match p with
  | c :: _ => Done c
  | [] => Fault
  end.

Section Implementation.

Variable char_signed : bool.

(** [while (isSeparator( *p )) p++;] *)
Fixpoint skip_separators (p : list ascii) : exec (list ascii) :=
  match p with
  | [] => Fault
  | c :: p' =>
      if isSeparator (int_of_char char_signed c) =? 0 then Done p
      else skip_separators p'
  end.

(** The [while ( *p != 0 )] loop of [matchPhrase] and the [return]
    behind it. *)
Fixpoint match_loop (fuel : nat) (t p : list ascii) : exec Z :=
  match fuel with
  | O => Timeout
  | S fuel' =>
      pc <- deref p ;;
      if (pc =? NUL)%char then Done TRUE
      else
        tc <- deref t ;;
        if (tc =? NUL)%char then Done FALSE
        else if negb (isSeparator (int_of_char char_signed pc) =? 0) then
          if isSeparator (int_of_char char_signed tc) =? 0 then Done FALSE
          else
            p' <- skip_separators p ;;
            t' <- skip_separators t ;;
            match_loop fuel' t' p'
        else if negb (code pc =? code tc) then Done FALSE
        else match_loop fuel' (tl t) (tl p)
  end.

(** Every turn of the loop moves [p] forward, so one unit of fuel per
    byte of the phrase buffer is enough. *)
Definition matchPhrase (text_ptr phrase_ptr : list ascii) : exec Z :=
  match_loop (S (length phrase_ptr)) text_ptr phrase_ptr.

(** [newline_pos = strchr(phrase, c); if (newline_pos != NULL)
    *newline_pos = 0;] *)
Definition cut_at (c : ascii) (phrase : list ascii) : list ascii :=
  match strchr phrase c with
  | Some newline_pos => store phrase newline_pos NUL
  | None => phrase
  end.

(** The search loop: [match_flags[i]] for [i] from [from] on, [count]
    of them. *)
Fixpoint find_matches (text phrase : list ascii) (from count : nat)
    : exec (list bool) :=
  match count with
  | O => Done []
  | S count' =>
      v <- matchPhrase (skipn from text) phrase ;;
      flags <- find_matches text phrase (S from) count' ;;
      Done (negb (v =? 0) :: flags)
  end.

End Implementation.

(** The output loop: '@' in front of every flagged character. *)
Fixpoint write_marked (text : list ascii) (match_flags : list bool)
    : list ascii :=
  match text, match_flags with
  | c :: text', flag :: flags' =>
      (if flag then ["@"%char] else []) ++ c :: write_marked text' flags'
  | _, _ => []
  end.

(** [main]: from the content of input.txt (if it can be opened) and
    whether output.txt can be opened for writing, to the exit status
    and the content of output.txt (if it was written). *)
Definition main (char_signed : bool) (input : option (list ascii))
    (writable : bool) : exec (Z * option (list ascii)) :=
  match input with
  | None => Done (1, None)
  | Some fin =>
      match fgets MAX_PHRASE_LEN fin with
      | None => Done (0, if writable then Some [] else None)
      | Some (line, fin') =>
          let phrase :=
            line ++ repeat NUL (Z.to_nat MAX_PHRASE_LEN - length line) in
          let phrase := cut_at "013"%char (cut_at newline phrase) in
          let chars_read := firstn (Z.to_nat (MAX_TEXT_LEN - 1)) fin' in
          let text_len := length chars_read in
          let text :=
            chars_read ++ repeat NUL (Z.to_nat MAX_TEXT_LEN - text_len) in
          match_flags <-
            (if (nth 0 phrase NUL =? NUL)%char
             then Done (repeat false text_len)
             else find_matches char_signed text phrase 0 text_len) ;;
          if writable
          then Done (0, Some (write_marked chars_read match_flags))
          else Done (1, None)
      end
  end.

(** *** What [matchPhrase] computes

    The comparison as a function of the two strings, by recursion on
    the phrase; [in_gap] says that the text has already been moved
    over its separators and the phrase is still inside its own.  It is
    the tool of the proofs; [match_loop_matches] ties it to the
    embedded loop. *)

Definition separator (c : ascii) : bool :=
  existsb (Ascii.eqb c) [" "%char; "009"%char; "010"%char; "013"%char].

Fixpoint drop_separators (l : list ascii) : list ascii :=
  match l with
  | c :: l' => if separator c then drop_separators l' else l
  | [] => []
  end.

Fixpoint matches (p : list ascii) (in_gap : bool) (t : list ascii) : bool :=
  match p with
  | [] => true
  | pc :: p' =>
      if separator pc then
        if in_gap then matches p' true t
        else
          match t with
          | tc :: _ =>
              if separator tc then matches p' true (drop_separators t)
              else false
          | [] => false
          end
      else
        match t with
        | tc :: t' => if (pc =? tc)%char then matches p' false t' else false
        | [] => false
        end
  end.

(** [terminated buffer s]: the buffer holds the characters [s] and
    then a NUL. *)
Definition terminated (buffer s : list ascii) : Prop :=
  (exists rest, buffer = s ++ NUL :: rest) /\ no_nul s = true.

End Search.

(** * Журнал проходной.c: the busiest interval of the gate log *)

Module Journal.

Definition MAX_RECORDS : Z := 10000.
Definition MAX_EVENTS : Z := MAX_RECORDS * 2.
Definition EVENT_ENTER : Z := 1.
Definition EVENT_LEAVE : Z := -1.

Record Event : Type := { time_in_minutes : Z; type : Z }.

Definition compareEvents (eventA eventB : Event) : Z :=
  let time_diff := wrap (time_in_minutes eventA - time_in_minutes eventB) in
  if negb (time_diff =? 0) then time_diff
  else wrap (type eventB - type eventA).

(** The two events [main] stores for a record [h1:m1 h2:m2]. *)
Definition events_of_record (r : Z * Z * Z * Z) : list Event :=
  let '(h1, m1, h2, m2) := r in
  [ {| time_in_minutes := wrap (wrap (h1 * 60) + m1); type := EVENT_ENTER |};
    {| time_in_minutes := wrap (wrap (h2 * 60) + m2); type := EVENT_LEAVE |} ].

(** The locals of [main] that the sweep over the sorted events uses. *)
Record Sweep : Type := {
  current_people : Z;
  max_people : Z;
  current_max_period_start_time : Z;
  max_period_duration : Z;
  result_start_time : Z;
  result_end_time : Z
}.

Definition sweep_start : Sweep :=
  {| current_people := 0; max_people := 0;
     current_max_period_start_time := 0; max_period_duration := -1;
     result_start_time := 0; result_end_time := 0 |}.

(** The body of [for (i = 0; i < 2 * n; ++i)] on [events[i]]. *)
Definition sweep_step (s : Sweep) (event : Event) : Sweep :=
  let prev_people := current_people s in
  let current_time := time_in_minutes event in
  let people := wrap (prev_people + type event) in
  if people >? max_people s then
    {| current_people := people;
       max_people := people;
       current_max_period_start_time := current_time;
       max_period_duration := -1;
       result_start_time := result_start_time s;
       result_end_time := result_end_time s |}
  else if (prev_people =? max_people s) && (people <? max_people s) then
    let current_duration :=
      wrap (current_time - current_max_period_start_time s) in
    if current_duration >? max_period_duration s then
      {| current_people := people;
         max_people := max_people s;
         current_max_period_start_time := current_max_period_start_time s;
         max_period_duration := current_duration;
         result_start_time := current_max_period_start_time s;
         result_end_time := current_time |}
    else
      {| current_people := people;
         max_people := max_people s;
         current_max_period_start_time := current_max_period_start_time s;
         max_period_duration := max_period_duration s;
         result_start_time := result_start_time s;
         result_end_time := result_end_time s |}
  else if (prev_people <? max_people s) && (people =? max_people s) then
    {| current_people := people;
       max_people := max_people s;
       current_max_period_start_time := current_time;
       max_period_duration := max_period_duration s;
       result_start_time := result_start_time s;
       result_end_time := result_end_time s |}
  else
    {| current_people := people;
       max_people := max_people s;
       current_max_period_start_time := current_max_period_start_time s;
       max_period_duration := max_period_duration s;
       result_start_time := result_start_time s;
       result_end_time := result_end_time s |}.

(** The whole loop over the array [events]. *)
Definition sweep (events : list Event) : Sweep :=
  fold_left sweep_step events sweep_start.

(** [printf("%d", z)]. *)
Definition format_d (z : Z) : list ascii :=
  list_ascii_of_string (NilEmpty.string_of_int (Z.to_int z)).

(** [printf("%02d", z)]: at least two characters, zeros put after the
    sign to get there. *)
Definition format_02d (z : Z) : list ascii :=
  if z <? 0 then format_d z
  else if z <? 10 then "0"%char :: format_d z
  else format_d z.

(** [minutes / 60] and [minutes % 60] truncate towards zero. *)
Definition printTime (minutes : Z) : list ascii :=
  format_02d (Z.quot minutes 60) ++ ":"%char :: format_02d (Z.rem minutes 60).

(** *** Vocabulary of the statements *)

Definition nobody : Event := {| time_in_minutes := 0; type := 0 |}.

(** The time of [events[j]]. *)
Definition time_at (events : list Event) (j : nat) : Z :=
  time_in_minutes (nth j events nobody).

(** The number of people inside after the first [k] events. *)
Definition occupancy (events : list Event) (k : nat) : Z :=
  fold_right (fun e people => type e + people) 0 (firstn k events).

(** The events are what [main] builds from sensible records: entries
    and leaves, at times that are not negative; and there are no more
    of them than the array holds. *)
Definition valid_event (e : Event) : Prop :=
  (type e = EVENT_ENTER \/ type e = EVENT_LEAVE)
  /\ 0 <= time_in_minutes e <= INT_MAX.

Definition well_formed (events : list Event) : Prop :=
  Forall valid_event events
  /\ Z.of_nat (length events) <= MAX_EVENTS.

(** The time between [events[j]] and the event after it. *)
Definition gap (events : list Event) (j : nat) : Z :=
  time_at events (S j) - time_at events j.

(** [peak events M j]: [M] people are inside between [events[j]] and
    the event after it. *)
Definition peak (events : list Event) (M : Z) (j : nat) : Prop :=
  (S j < length events)%nat /\ occupancy events (S j) = M.

(** A record as a sensible log has it: two times of the day, the
    leave not before the entry. *)
Definition valid_record (r : Z * Z * Z * Z) : Prop :=
  let '(h1, m1, h2, m2) := r in
  0 <= h1 <= 23 /\ 0 <= m1 <= 59 /\ 0 <= h2 <= 23 /\ 0 <= m2 <= 59
  /\ h1 * 60 + m1 <= h2 * 60 + m2.

(** The number of events of [l] of type [ty] that [keep] lets pass. *)
Definition tally (ty : Z) (keep : Event -> bool) (l : list Event) : Z :=
  Z.of_nat (length (filter (fun e => (type e =? ty) && keep e) l)).

(** [e] comes no later than [x], and strictly before [x], in the
    order of compareEvents. *)
Definition upto (x e : Event) : bool := compareEvents e x <=? 0.
Definition below (x e : Event) : bool := compareEvents e x <? 0.

(** A small log: two visits that overlap from 11:00 to 11:40. *)
Definition busy_hour : list Event :=
  [ {| time_in_minutes := 600; type := EVENT_ENTER |};
    {| time_in_minutes := 660; type := EVENT_ENTER |};
    {| time_in_minutes := 700; type := EVENT_LEAVE |};
    {| time_in_minutes := 720; type := EVENT_LEAVE |} ].

(** The two decimal digits of a number below 100. *)
Definition two_digits (z : Z) : list ascii :=
  [ascii_of_nat (48 + Z.to_nat (z / 10));
   ascii_of_nat (48 + Z.to_nat (z mod 10))].

(** *** The invariant of the sweep

    What holds of the locals when [k] events have been processed: the
    count and its maximum so far ([counted]), and, for events in time
    order with nobody leaving before entering, the start of the
    running peak and the best peak found ([tracked]). *)

Record counted (events : list Event) (k : nat) (s : Sweep) : Prop := {
  counted_people : current_people s = occupancy events k;
  counted_bound : forall x, (x <= k)%nat -> occupancy events x <= max_people s;
  counted_reached : exists x, (x <= k)%nat /\ occupancy events x = max_people s
}.

Record tracked (events : list Event) (k : nat) (s : Sweep) : Prop := {
  tracked_start :
    (1 <= k)%nat -> occupancy events k = max_people s ->
    current_max_period_start_time s = time_at events (k - 1);
  tracked_range : 0 <= current_max_period_start_time s <= INT_MAX;
  tracked_longest :
    forall j, (S j < k)%nat -> occupancy events (S j) = max_people s ->
              gap events j <= max_period_duration s;
  tracked_best :
    (max_period_duration s = -1
     /\ forall j, (S j < k)%nat -> occupancy events (S j) <> max_people s)
    \/ exists j,
         (S j < k)%nat /\ occupancy events (S j) = max_people s
         /\ max_period_duration s = gap events j
         /\ result_start_time s = time_at events j
         /\ result_end_time s = time_at events (S j)
         /\ forall j', (j' < j)%nat ->
              occupancy events (S j') = max_people s ->
              gap events j' < gap events j
}.

(** The order [qsort] leaves the array in. *)
Definition sorted (events : list Event) : Prop :=
  forall i j, (i < j < length events)%nat ->
    compareEvents (nth i events nobody) (nth j events nobody) <= 0.

End Journal.

(** * Proofs *)

(** ** Machine integers and the library functions *)

Lemma wrap_id (z : Z) : INT_MIN <= z <= INT_MAX -> wrap z = z.
Proof.
  unfold wrap, INT_MIN, INT_MAX. intros H.
  rewrite Z.mod_small; lia.
Qed.

Lemma strlen_app (s rest : list ascii) :
  no_nul s = true -> strlen (s ++ NUL :: rest) = Done (length s).
Proof.
  induction s as [|c s IH]; simpl; intros H.
  - reflexivity.
  - apply andb_prop in H. destruct H as [Hc Hs].
    apply negb_true_iff in Hc. rewrite Hc, (IH Hs). reflexivity.
Qed.

Lemma load_app (s rest : list ascii) (i : Z) :
  0 <= i < Z.of_nat (length s) ->
  load (s ++ rest) i = Done (nth (Z.to_nat i) s NUL).
Proof.
  intros H. unfold load.
  rewrite length_app, Nat2Z.inj_add.
  replace (0 <=? i) with true by (symmetry; apply Z.leb_le; lia).
  replace (i <? _) with true by (symmetry; apply Z.ltb_lt; lia).
  simpl. rewrite app_nth1 by lia. reflexivity.
Qed.

Lemma skipn_nth (s : list ascii) (k : nat) :
  (k < length s)%nat -> skipn k s = nth k s NUL :: skipn (S k) s.
Proof.
  revert k. induction s as [|c s IH]; intros [|k] H; simpl in *; try lia.
  - reflexivity.
  - apply IH. lia.
Qed.

Lemma skipn_at (s : list ascii) (i : Z) :
  0 <= i < Z.of_nat (length s) ->
  skipn (Z.to_nat i) s
  = nth (Z.to_nat i) s NUL :: skipn (Z.to_nat (i + 1)) s.
Proof.
  intros H. rewrite Z2Nat.inj_add by lia. simpl (Z.to_nat 1).
  rewrite Nat.add_1_r. apply skipn_nth. lia.
Qed.

(** The character classes do not overlap where the code relies on it. *)
Lemma class_facts (c : ascii) :
  (isdigit c = true -> isspace c = false /\ is_operator c = false
                       /\ (c =? ")"%char)%char = false)
  /\ (islower c = true -> isspace c = false /\ is_operator c = false
                       /\ (c =? ")"%char)%char = false)
  /\ ((c =? "("%char)%char = true -> isspace c = false
        /\ is_operator c = false /\ (c =? ")"%char)%char = false
        /\ isdigit c = false /\ islower c = false)
  /\ ((c =? ")"%char)%char = true -> isspace c = false
        /\ is_operator c = false /\ isdigit c = false /\ islower c = false
        /\ (c =? "("%char)%char = false /\ is_sign c = false)
  /\ (is_sign c = true -> isspace c = false /\ is_operator c = true
        /\ isdigit c = false /\ islower c = false
        /\ (c =? "("%char)%char = false).
Proof.
  destruct c as [[] [] [] [] [] [] [] []]; vm_compute;
    repeat split; intros; congruence.
Qed.


(** ** The automaton *)

Lemma walk_app (l1 l2 : list ascii) :
  forall bal m,
    walk (l1 ++ l2) bal m
    = match walk l1 bal m with
      | Some (bal', m') => walk l2 bal' m'
      | None => None
      end.
Proof.
  induction l1 as [|c l1 IH]; simpl; intros bal m; [reflexivity|].
  destruct (step c bal m) as [[bal' m']|]; [apply IH|reflexivity].
Qed.

(** Outside a number [Digits] behaves as [Operator] does. *)
Lemma step_after_number (c : ascii) (bal : Z) (m : mode) :
  (m = Digits -> isdigit c = false) ->
  step c bal m = step c bal (mode_of (state_of m)).
Proof.
  intros H. destruct m; try reflexivity.
  unfold step. rewrite H by reflexivity. reflexivity.
Qed.

Lemma outcome_after_number (n bal : Z) (m : mode) (l : list ascii) :
  (m = Digits -> match l with
                 | [] => True
                 | c :: _ => isdigit c = false
                 end) ->
  outcome n (walk l bal m) = outcome n (walk l bal (mode_of (state_of m))).
Proof.
  intros H. destruct l as [|c l]; simpl.
  - destruct m; reflexivity.
  - rewrite (step_after_number c bal m) by assumption. reflexivity.
Qed.

(** ** The loop follows the automaton *)

Section Refinement.

(** The buffer is [s ++ rest]; the loop runs with [len = length s]. *)
Variables s rest : list ascii.
Let n : Z := Z.of_nat (length s).
Hypothesis fits : n <= INT_MAX.

Lemma skip_digits_sound (fuel : nat) :
  forall i i', 0 <= i < n ->
    skip_digits fuel (s ++ rest) n i = Done i' -> digit_run s i i'.
Proof.
  unfold digit_run. fold n.
  induction fuel as [|fuel IH]; simpl; intros i i' Hi H; [discriminate|].
  rewrite wrap_id in H by (unfold INT_MIN; lia).
  destruct (i + 1 <? n) eqn:E.
  - apply Z.ltb_lt in E. rewrite load_app in H by (fold n; lia).
    simpl in H. destruct (isdigit _) eqn:D.
    + apply IH in H; [|lia]. destruct H as (H1 & H2 & H3).
      repeat split; try lia; auto.
      intros j Hj. destruct (Z.eq_dec j (i + 1)) as [->|]; [assumption|].
      apply H2. lia.
    + injection H as <-. repeat split; try lia; auto.
  - apply Z.ltb_ge in E. injection H as <-.
    repeat split; try lia; intros; lia.
Qed.

Lemma skip_digits_total (fuel : nat) :
  forall i, 0 <= i < n -> n - i <= Z.of_nat fuel ->
    exists i', skip_digits fuel (s ++ rest) n i = Done i'.
Proof.
  induction fuel as [|fuel IH]; simpl; intros i Hi Hf; [lia|].
  rewrite wrap_id by (unfold INT_MIN; lia).
  destruct (i + 1 <? n) eqn:E; [|eauto].
  apply Z.ltb_lt in E. rewrite load_app by (fold n; lia). simpl.
  destruct (isdigit _); [|eauto]. apply IH; lia.
Qed.

(** The automaton enters a number at [s[i]] and leaves it where the
    inner loop stops. *)
Lemma walk_digit_run (bal : Z) (k : nat) :
  forall i i', i' = i + Z.of_nat k -> 0 <= i -> digit_run s i i' ->
    outcome n (walk (skipn (Z.to_nat (i + 1)) s) bal Digits)
    = ahead s (i' + 1) bal STATE_EXPECT_OPERATOR.
Proof.
  unfold ahead, digit_run. fold n.
  induction k as [|k IH]; intros i i' -> Hi (Hn & Hd & Hs).
  - rewrite Z.add_0_r in *. apply outcome_after_number. intros _.
    destruct (Z.eq_dec (i + 1) n) as [E|E].
    + rewrite skipn_all2 by (unfold n in E; lia). exact I.
    + rewrite skipn_at by (fold n; lia). apply Hs. lia.
  - replace (i + Z.of_nat (S k) + 1) with (i + 1 + Z.of_nat k + 1)
      in * by lia.
    rewrite skipn_at by (fold n; lia). cbn [walk].
    assert (D : isdigit (nth (Z.to_nat (i + 1)) s NUL) = true)
      by (apply Hd; lia).
    unfold step at 1. destruct (class_facts (nth (Z.to_nat (i + 1)) s NUL))
      as (F & _). destruct (F D) as (-> & _). rewrite D.
    apply (IH (i + 1) (i + 1 + Z.of_nat k)); try lia.
    repeat split; try lia; [|assumption].
    intros j Hj. apply Hd. lia.
Qed.

(** One pass through the body, when it completes, is one step of the
    automaton on [s[i]], followed by the rest of the number when
    [s[i]] starts one; the locals stay in range. *)
Lemma loop_body_step (fuel : nat) (i bal : Z) (st : State) (r : flow) :
  0 <= i < n -> 0 <= bal <= i ->
  loop_body fuel (s ++ rest) n i bal st = Done r ->
  let c := nth (Z.to_nat i) s NUL in
  match r with
  | Return v => v = FALSE /\ step c bal (mode_of st) = None
  | Next i' bal' st' =>
      0 <= bal' <= i + 1
      /\ ((i' = i /\ step c bal (mode_of st) = Some (bal', mode_of st'))
          \/ (step c bal (mode_of st) = Some (bal', Digits)
              /\ st' = STATE_EXPECT_OPERATOR /\ digit_run s i i'))
  end.
Proof.
  intros Hi Hb. unfold loop_body.
  rewrite load_app by (fold n; lia). cbn [bind].
  intros H. set (c := nth (Z.to_nat i) s NUL) in *. unfold step. revert H.
  destruct (class_facts c) as (Fd & Fl & Fo & Fc & Fs).
  destruct (isspace c) eqn:Esp.
  { intros [= <-]. split; [lia|]. left. destruct st; auto. }
  destruct st; cbn [transition bind mode_of].
  - destruct (isdigit c) eqn:Ed.
    { destruct (skip_digits fuel (s ++ rest) n i) as [i'| |] eqn:Esk;
        cbn [bind]; try discriminate.
      apply skip_digits_sound in Esk; [|lia].
      replace (bal <? 0) with false by (symmetry; apply Z.ltb_ge; lia).
      intros [= <-]. split; [lia|]. right. auto. }
    destruct (islower c) eqn:El.
    { cbn [bind].
      replace (bal <? 0) with false by (symmetry; apply Z.ltb_ge; lia).
      intros [= <-]. split; [lia|]. left. auto. }
    destruct (c =? "(")%char eqn:Eo.
    { cbn [bind]. rewrite wrap_id by (unfold INT_MIN; lia).
      replace (bal + 1 <? 0) with false by (symmetry; apply Z.ltb_ge; lia).
      intros [= <-]. split; [lia|]. left. auto. }
    fold (is_sign c). destruct (is_sign c) eqn:Es.
    { cbn [bind].
      replace (bal <? 0) with false by (symmetry; apply Z.ltb_ge; lia).
      intros [= <-]. split; [lia|]. left. auto. }
    intros [= <-]. split; reflexivity.
  - unfold after_operand, is_operator.
    destruct (strchr operators c) eqn:Eop; cbn [bind].
    { replace (bal <? 0) with false by (symmetry; apply Z.ltb_ge; lia).
      intros [= <-]. split; [lia|]. left. auto. }
    destruct (c =? ")")%char eqn:Ec; cbn [bind].
    { rewrite wrap_id by (unfold INT_MIN; lia).
      destruct (bal - 1 <? 0) eqn:Eneg.
      - intros [= <-]. split; reflexivity.
      - apply Z.ltb_ge in Eneg. intros [= <-]. split; [lia|]. left. auto. }
    intros [= <-]. split; reflexivity.
Qed.

(** The same, read from the loop's point of view: what lies ahead of
    [i] is what lies ahead of the next index. *)
Lemma loop_body_sound (fuel : nat) (i bal : Z) (st : State) (r : flow) :
  0 <= i < n -> 0 <= bal <= i ->
  loop_body fuel (s ++ rest) n i bal st = Done r ->
  match r with
  | Return v => v = FALSE /\ ahead s i bal st = Return FALSE
  | Next i' bal' st' =>
      i <= i' < n /\ 0 <= bal' <= i' + 1
      /\ ahead s i bal st = ahead s (i' + 1) bal' st'
  end.
Proof.
  intros Hi Hb H. apply loop_body_step in H; try assumption.
  cbv zeta in H.
  assert (E : ahead s i bal st
              = outcome n match step (nth (Z.to_nat i) s NUL) bal (mode_of st) with
                          | Some (bal', m') =>
                              walk (skipn (Z.to_nat (i + 1)) s) bal' m'
                          | None => None
                          end).
  { unfold ahead. rewrite (skipn_at s i) by (fold n; lia). reflexivity. }
  rewrite E. clear E.
  destruct r as [v|i' bal' st'].
  - destruct H as (-> & ->). split; reflexivity.
  - destruct H as (Hb' & [(-> & ->)|(-> & -> & Hrun)]).
    + repeat split; try lia.
    + pose proof Hrun as (Hr & _). fold n in Hr.
      repeat split; try lia.
      apply (walk_digit_run bal' (Z.to_nat (i' - i))); auto; lia.
Qed.

Lemma loop_body_total (fuel : nat) (i bal : Z) (st : State) :
  0 <= i < n -> n - i <= Z.of_nat fuel ->
  exists r, loop_body fuel (s ++ rest) n i bal st = Done r.
Proof.
  intros Hi Hf. unfold loop_body.
  rewrite load_app by (fold n; lia). cbn [bind].
  set (c := nth (Z.to_nat i) s NUL).
  destruct (isspace c); [eauto|].
  destruct st; cbn [transition bind].
  - destruct (isdigit c).
    { destruct (skip_digits_total fuel i Hi Hf) as [i' ->]. cbn [bind].
      destruct (bal <? 0); eauto. }
    destruct (islower c); cbn [bind]; [destruct (bal <? 0); eauto|].
    destruct (c =? "(")%char; cbn [bind]; [destruct (_ <? 0); eauto|].
    destruct (_ || _); cbn [bind]; [destruct (bal <? 0); eauto|eauto].
  - destruct (strchr operators c); cbn [bind]; [destruct (bal <? 0); eauto|].
    destruct (c =? ")")%char; cbn [bind]; [destruct (_ <? 0); eauto|eauto].
Qed.

(** The loop, started at any configuration in range with fuel for
    the characters left, returns what the automaton says. *)
Lemma for_loop_ahead (fuel : nat) :
  forall i bal st, 0 <= i <= n -> 0 <= bal <= i ->
    n - i < Z.of_nat fuel ->
    for_loop fuel (s ++ rest) n i bal st = Done (ahead s i bal st).
Proof.
  induction fuel as [|fuel IH]; intros i bal st Hi Hb Hf; [lia|].
  simpl. destruct (i <? n) eqn:E.
  - apply Z.ltb_lt in E.
    destruct (loop_body_total fuel i bal st) as [r Hr]; try lia.
    rewrite Hr. simpl.
    apply loop_body_sound in Hr; try lia.
    destruct r as [v|i' bal' st'].
    + destruct Hr as (-> & ->). reflexivity.
    + destruct Hr as (H1 & H2 & ->).
      rewrite wrap_id by (unfold INT_MIN; lia).
      apply IH; lia.
  - apply Z.ltb_ge in E. assert (i = n) as -> by lia.
    unfold ahead. rewrite skipn_all2 by (unfold n; lia).
    simpl. destruct st; reflexivity.
Qed.

End Refinement.

(** ** Facts about the automaton *)

Lemma walk_spaces (ws : list ascii) :
  forallb isspace ws = true ->
  forall bal m,
    walk ws bal m
    = Some (bal, match ws with [] => m | _ :: _ => mode_of (state_of m) end).
Proof.
  induction ws as [|c ws IH]; simpl; intros H bal m; [reflexivity|].
  apply andb_prop in H. destruct H as [Hc Hws].
  unfold step. rewrite Hc, (IH Hws).
  destruct ws, m; reflexivity.
Qed.

Lemma walk_signs (l : list ascii) :
  forallb is_sign l = true ->
  forall bal, walk l bal Operand = Some (bal, Operand).
Proof.
  induction l as [|c l IH]; simpl; intros H bal; [reflexivity|].
  apply andb_prop in H. destruct H as [Hc Hl].
  destruct (class_facts c) as (_ & _ & _ & _ & Fs).
  destruct (Fs Hc) as (Hsp & _ & Hd & Hl' & Ho).
  unfold step. rewrite Hsp, Hd, Hl', Ho, Hc. apply IH, Hl.
Qed.

Lemma walk_digits (l : list ascii) :
  l <> [] -> forallb isdigit l = true ->
  forall bal m,
    walk l bal m
    = match m with Operator => None | _ => Some (bal, Digits) end.
Proof.
  assert (G : forall l, forallb isdigit l = true ->
                        forall bal, walk l bal Digits = Some (bal, Digits)).
  { clear l. induction l as [|c l IH]; simpl; intros H bal; [reflexivity|].
    apply andb_prop in H. destruct H as [Hc Hl].
    destruct (class_facts c) as (Fd & _). destruct (Fd Hc) as (Hsp & _).
    unfold step. rewrite Hsp, Hc. apply IH, Hl. }
  destruct l as [|c l]; [congruence|]. simpl. intros _ H bal m.
  apply andb_prop in H. destruct H as [Hc Hl].
  destruct (class_facts c) as (Fd & _). destruct (Fd Hc) as (Hsp & Hop & Hcl).
  unfold step, after_operand. rewrite Hsp, Hc, ?Hop, ?Hcl.
  destruct m; auto.
Qed.

Lemma count_cons (c x : ascii) (l : list ascii) :
  count c (x :: l) = (if (x =? c)%char then 1 else 0) + count c l.
Proof.
  unfold count. simpl. destruct (ascii_dec x c) as [->|N].
  - rewrite Ascii.eqb_refl. lia.
  - apply Ascii.eqb_neq in N. rewrite N. lia.
Qed.

Lemma balance_cons (x : ascii) (l : list ascii) :
  balance (x :: l)
  = (if (x =? "(")%char then 1 else 0) - (if (x =? ")")%char then 1 else 0)
    + balance l.
Proof. unfold balance. rewrite !count_cons. lia. Qed.

Lemma balance_app (l1 l2 : list ascii) :
  balance (l1 ++ l2) = balance l1 + balance l2.
Proof.
  induction l1 as [|x l1 IH]; [reflexivity|].
  simpl app. rewrite !balance_cons, IH. lia.
Qed.

(** A step moves the balance as the parentheses count, and never from
    a non-negative value to a negative one. *)
Lemma step_balance (c : ascii) (bal : Z) (m : mode) (bal' : Z) (m' : mode) :
  step c bal m = Some (bal', m') ->
  bal' = bal + balance [c] /\ (0 <= bal -> 0 <= bal').
Proof.
  rewrite balance_cons. change (balance []) with 0.
  destruct (class_facts c) as (Fd & Fl & Fo & Fc & Fs).
  assert (Fsp : isspace c = true ->
                (c =? "(")%char = false /\ (c =? ")")%char = false).
  { destruct c as [[] [] [] [] [] [] [] []]; vm_compute;
      intros; split; congruence. }
  assert (Fop : is_operator c = true ->
                (c =? "(")%char = false /\ (c =? ")")%char = false).
  { destruct c as [[] [] [] [] [] [] [] []]; vm_compute;
      intros; split; congruence. }
  unfold step, after_operand.
  destruct (isspace c) eqn:Esp.
  { destruct (Fsp eq_refl) as (-> & ->). intros [= <- _]. lia. }
  assert (A : (if is_operator c then Some (bal, Operand)
               else if (c =? ")")%char
                    then if bal - 1 <? 0 then None
                         else Some (bal - 1, Operator)
                    else None) = Some (bal', m') ->
              bal' = bal + ((if (c =? "(")%char then 1 else 0)
                            - (if (c =? ")")%char then 1 else 0) + 0)
              /\ (0 <= bal -> 0 <= bal')).
  { destruct (is_operator c) eqn:Eop.
    - destruct (Fop eq_refl) as (-> & ->). intros [= <- _]. lia.
    - destruct (c =? ")")%char eqn:Ec; [|discriminate].
      destruct (Fc eq_refl) as (_ & _ & _ & _ & -> & _).
      destruct (bal - 1 <? 0) eqn:En; [discriminate|].
      apply Z.ltb_ge in En. intros [= <- _]. lia. }
  destruct m; auto.
  - destruct (isdigit c) eqn:Ed.
    { destruct (Fd eq_refl) as (_ & _ & ->).
      destruct (c =? "(")%char eqn:Eo;
        [destruct (Fo eq_refl) as (_ & _ & _ & ? & _); congruence|].
      intros [= <- _]. lia. }
    destruct (islower c) eqn:El.
    { destruct (Fl eq_refl) as (_ & _ & ->).
      destruct (c =? "(")%char eqn:Eo;
        [destruct (Fo eq_refl) as (_ & _ & _ & _ & ?); congruence|].
      intros [= <- _]. lia. }
    destruct (c =? "(")%char eqn:Eo.
    { destruct (Fo eq_refl) as (_ & _ & -> & _). intros [= <- _]. lia. }
    destruct (is_sign c) eqn:Es; [|discriminate].
    destruct (c =? ")")%char eqn:Ec;
      [destruct (Fc eq_refl) as (_ & _ & _ & _ & _ & ?); congruence|].
    intros [= <- _]. lia.
  - destruct (isdigit c) eqn:Ed; auto.
    destruct (Fd eq_refl) as (_ & _ & ->).
    destruct (c =? "(")%char eqn:Eo;
      [destruct (Fo eq_refl) as (_ & _ & _ & ? & _); congruence|].
    intros [= <- _]. lia.
Qed.

(** A completed walk: the balance moved by the surplus of '(' over
    ')', and no prefix let it fall below its start. *)
Lemma walk_balance (l : list ascii) :
  forall bal m bal' m',
    walk l bal m = Some (bal', m') -> 0 <= bal ->
    bal' = bal + balance l
    /\ forall k, 0 <= bal + balance (firstn k l).
Proof.
  induction l as [|c l IH]; simpl; intros bal m bal' m' H Hb.
  - injection H as <- <-. split; [unfold balance, count; simpl; lia|].
    intros k. rewrite firstn_nil. unfold balance, count. simpl. lia.
  - destruct (step c bal m) as [[b1 m1]|] eqn:E; [|discriminate].
    apply step_balance in E. destruct E as (E1 & E2).
    destruct (IH _ _ _ _ H (E2 Hb)) as (H1 & H2).
    rewrite (balance_cons c l) in *. rewrite balance_cons in E1.
    change (balance []) with 0 in E1. split; [lia|].
    intros [|k]; simpl firstn.
    + unfold balance, count. simpl. lia.
    + rewrite balance_cons. specialize (H2 k). lia.
Qed.

(** ** The configurations the loop visits *)

Lemma firstn_snoc (s : list ascii) (k : nat) :
  (k < length s)%nat -> firstn (S k) s = firstn k s ++ [nth k s NUL].
Proof.
  revert k. induction s as [|c s IH]; intros [|k] H; simpl in *; try lia.
  - reflexivity.
  - f_equal. apply IH. lia.
Qed.

Lemma firstn_at (s : list ascii) (i : Z) :
  0 <= i < Z.of_nat (length s) ->
  firstn (Z.to_nat (i + 1)) s
  = firstn (Z.to_nat i) s ++ [nth (Z.to_nat i) s NUL].
Proof.
  intros H. rewrite Z2Nat.inj_add by lia. simpl (Z.to_nat 1).
  rewrite Nat.add_1_r. apply firstn_snoc. lia.
Qed.

Section Visits.

Variables s rest : list ascii.
Let n : Z := Z.of_nat (length s).
Hypothesis fits : n <= INT_MAX.

Lemma walk_firstn_digits (bal : Z) (k : nat) :
  forall i, 0 <= i -> i + Z.of_nat k < n ->
    walk (firstn (Z.to_nat (i + 1)) s) 0 Operand = Some (bal, Digits) ->
    (forall j, i < j <= i + Z.of_nat k ->
               isdigit (nth (Z.to_nat j) s NUL) = true) ->
    walk (firstn (Z.to_nat (i + Z.of_nat k + 1)) s) 0 Operand
    = Some (bal, Digits).
Proof.
  induction k as [|k IH]; intros i Hi Hn Hw Hd.
  - rewrite Z.add_0_r. assumption.
  - replace (i + Z.of_nat (S k) + 1) with (i + Z.of_nat k + 1 + 1) by lia.
    rewrite firstn_at by (fold n; lia). rewrite walk_app.
    rewrite IH; try lia; auto; [|intros j Hj; apply Hd; lia].
    assert (D : isdigit (nth (Z.to_nat (i + Z.of_nat k + 1)) s NUL) = true)
      by (apply Hd; lia).
    destruct (class_facts (nth (Z.to_nat (i + Z.of_nat k + 1)) s NUL))
      as (Fd & _). destruct (Fd D) as (Hsp & _).
    simpl. unfold step. rewrite Hsp, D. reflexivity.
Qed.

(** Every visited configuration is in range; the automaton, run over
    the characters in front of it, is in that configuration; and what
    lies ahead of it is what lay ahead at the start. *)
Lemma visits_inv (i bal : Z) (st : State) :
  visits (s ++ rest) n i bal st ->
  0 <= i <= n /\ 0 <= bal <= i
  /\ behind s i bal st
  /\ ahead s i bal st = ahead s 0 0 STATE_EXPECT_OPERAND.
Proof.
  induction 1 as [|fuel i bal st i' bal' st' V IH Hlt Hbody].
  - repeat split; try lia.
    exists Operand. repeat split; try reflexivity. discriminate.
  - destruct IH as (Hi & Hb & (m & Hw & Hst & Hm) & Ha).
    pose proof (loop_body_sound s rest fits fuel i bal st _
                  ltac:(fold n; lia) Hb Hbody) as (R1 & R2 & R3).
    pose proof (loop_body_step s rest fits fuel i bal st _
                  ltac:(fold n; lia) Hb Hbody) as St.
    cbv zeta in St. destruct St as (_ & St).
    fold n in R1. rewrite wrap_id by (unfold INT_MIN; lia).
    repeat split; try lia; [|congruence].
    assert (W1 : walk (firstn (Z.to_nat (i + 1)) s) 0 Operand
                 = step (nth (Z.to_nat i) s NUL) bal (mode_of st)).
    { rewrite firstn_at by (fold n; lia). rewrite walk_app, Hw.
      simpl. rewrite (step_after_number _ bal m) by (intros E; apply Hm; [exact E|exact Hlt]).
      rewrite Hst. destruct (step _ _ _) as [[? ?]|]; reflexivity. }
    destruct St as [(-> & St)|(St & -> & Hrun)].
    + exists (mode_of st'). rewrite W1, St.
      repeat split; destruct st'; try reflexivity; discriminate.
    + exists Digits. destruct Hrun as (Hr & Hd & Hs). fold n in Hr, Hs.
      repeat split; [|intros _; exact Hs].
      replace (i' + 1) with (i + Z.of_nat (Z.to_nat (i' - i)) + 1) by lia.
      apply walk_firstn_digits; try lia.
      * rewrite W1. exact St.
      * intros j Hj. apply Hd. lia.
Qed.

End Visits.

(** ** The function as a whole *)

Lemma c_string_length (expr s : list ascii) :
  c_string expr s -> (length s < length expr)%nat.
Proof.
  intros ((rest & ->) & _). rewrite length_app. simpl. lia.
Qed.

(** Whatever [main] passes fits: its buffer has [BUFFER_SIZE] bytes. *)
Lemma c_string_of_buffer (expr s rest : list ascii) :
  expr = s ++ NUL :: rest -> no_nul s = true ->
  Z.of_nat (length expr) <= BUFFER_SIZE ->
  c_string expr s.
Proof.
  intros -> Hn Hb. split; [eauto|]. split; [assumption|].
  rewrite length_app, Nat2Z.inj_add in Hb.
  unfold BUFFER_SIZE, MAX_EXPR_LEN in Hb. unfold INT_MAX. lia.
Qed.

Lemma scan_ahead (expr s : list ascii) (fuel : nat) :
  c_string expr s -> (length s < fuel)%nat ->
  scan fuel expr = Done (ahead s 0 0 STATE_EXPECT_OPERAND).
Proof.
  intros ((rest & ->) & Hn & Hf) Hfuel. unfold scan.
  rewrite strlen_app by assumption. cbn [bind].
  rewrite wrap_id by (unfold INT_MIN; lia).
  apply for_loop_ahead; lia.
Qed.

Lemma isValidExpression_fuel_verdict (expr s : list ascii) (fuel : nat) :
  c_string expr s -> (length s < fuel)%nat ->
  isValidExpression_fuel fuel expr = Done (verdict s).
Proof.
  intros H Hfuel. unfold isValidExpression_fuel.
  rewrite (scan_ahead expr s) by assumption.
  unfold ahead, verdict. simpl skipn. cbn [bind mode_of].
  destruct (walk s 0 Operand) as [[bal m]|]; simpl; [|reflexivity].
  destruct (_ && _); reflexivity.
Qed.

Lemma isValidExpression_verdict (expr s : list ascii) :
  c_string expr s -> isValidExpression expr = Done (verdict s).
Proof.
  intros H. apply isValidExpression_fuel_verdict; [assumption|].
  apply c_string_length in H. lia.
Qed.

Lemma verdict_cases (s : list ascii) : verdict s = TRUE \/ verdict s = FALSE.
Proof.
  unfold verdict. destruct (walk s 0 Operand) as [[bal m]|]; auto.
  destruct (_ && _); auto.
Qed.

Lemma verdict_TRUE (s : list ascii) :
  verdict s = TRUE ->
  exists m, walk s 0 Operand = Some (0, m)
            /\ state_of m = STATE_EXPECT_OPERATOR.
Proof.
  unfold verdict. destruct (walk s 0 Operand) as [[bal m]|];
    [|discriminate].
  destruct (bal =? 0) eqn:Eb; [|discriminate].
  apply Z.eqb_eq in Eb. subst bal.
  destruct m; simpl; try discriminate; eauto.
Qed.

(** The loop never returns anything but [FALSE]. *)
Lemma loop_body_returns (fuel : nat) (expr : list ascii) (len i bal : Z)
    (st : State) (v : Z) :
  loop_body fuel expr len i bal st = Done (Return v) -> v = FALSE.
Proof.
  unfold loop_body. destruct (load expr i) as [c| |]; cbn [bind];
    try discriminate.
  destruct (isspace c); [discriminate|].
  destruct (transition fuel expr len i bal st c) as [[w|i' bal' st']| |]
    eqn:E; cbn [bind]; try discriminate.
  - intros [= <-]. revert E. unfold transition.
    destruct st.
    + destruct (isdigit c).
      { destruct (skip_digits _ _ _ _); cbn [bind]; discriminate. }
      destruct (islower c); [discriminate|].
      destruct (c =? "(")%char; [discriminate|].
      destruct (_ || _); [discriminate|]. intros [= <-]. reflexivity.
    + destruct (strchr operators c); [discriminate|].
      destruct (c =? ")")%char; [discriminate|].
      intros [= <-]. reflexivity.
  - destruct (bal' <? 0); [|discriminate]. intros [= <-]. reflexivity.
Qed.

Lemma for_loop_returns (fuel : nat) :
  forall expr len i bal st v,
    for_loop fuel expr len i bal st = Done (Return v) -> v = FALSE.
Proof.
  induction fuel as [|fuel IH]; simpl; intros expr len i bal st v;
    [discriminate|].
  destruct (i <? len); [|discriminate].
  destruct (loop_body fuel expr len i bal st) as [[w|i' bal' st']| |] eqn:E;
    cbn [bind]; try discriminate.
  - intros [= <-]. eapply loop_body_returns, E.
  - apply IH.
Qed.

Lemma scan_returns (fuel : nat) (expr : list ascii) (v : Z) :
  scan fuel expr = Done (Return v) -> v = FALSE.
Proof.
  unfold scan. destruct (strlen expr); cbn [bind]; try discriminate.
  apply for_loop_returns.
Qed.

Lemma walk_rejected (p q : list ascii) (bal : Z) (m : mode) :
  walk p bal m = None -> walk (p ++ q) bal m = None.
Proof. intros H. rewrite walk_app, H. reflexivity. Qed.

Lemma verdict_rejected (s : list ascii) :
  walk s 0 Operand = None -> verdict s = FALSE.
Proof. unfold verdict. intros ->. reflexivity. Qed.

(** A visited configuration at which the automaton has no step makes
    the whole call return [FALSE]. *)
Lemma visits_stuck (expr s : list ascii) (i bal : Z) (st : State) :
  c_string expr s ->
  visits expr (Z.of_nat (length s)) i bal st ->
  i < Z.of_nat (length s) ->
  step (nth (Z.to_nat i) s NUL) bal (mode_of st) = None ->
  isValidExpression expr = Done FALSE.
Proof.
  intros H V Hi Hstep. rewrite (isValidExpression_verdict expr s H).
  destruct H as ((rest & ->) & Hn & Hf).
  apply (visits_inv s (NUL :: rest) Hf) in V.
  destruct V as (Hr & _ & _ & Ha). f_equal. apply verdict_rejected.
  unfold ahead in Ha. rewrite skipn_at in Ha by lia.
  cbn [walk] in Ha. rewrite Hstep in Ha. simpl in Ha.
  destruct (walk s 0 Operand) as [[b m]|]; [discriminate|reflexivity].
Qed.

(** Discharges [c_string (lit "...") (list_ascii_of_string "...")]. *)
Ltac literal :=
  split; [exists []; reflexivity
         |split; [reflexivity|unfold INT_MAX; simpl; lia]].

(** * The claims *)

(** C1.  The validator accepts exactly when the scan runs to the end of
    the string and leaves the balance at 0 and the state at
    [STATE_EXPECT_OPERATOR].  Hence a string of whitespace only (the
    empty one included) is rejected, and so is every string whose scan
    ends in [STATE_EXPECT_OPERAND]: "a+" is rejected, "a+1" accepted. *)
Theorem accept_iff_final_state :
  (forall expr,
      isValidExpression expr = Done TRUE
      <-> exists i,
          scan (S (length expr)) expr
          = Done (Next i 0 STATE_EXPECT_OPERATOR))
  /\ (forall expr s,
         c_string expr s -> forallb isspace s = true ->
         isValidExpression expr = Done FALSE)
  /\ (forall expr i bal,
         scan (S (length expr)) expr
         = Done (Next i bal STATE_EXPECT_OPERAND) ->
         isValidExpression expr = Done FALSE)
  /\ isValidExpression (lit "") = Done FALSE
  /\ isValidExpression (lit "a+") = Done FALSE
  /\ isValidExpression (lit "a+1") = Done TRUE.
Proof.
  split; [|split; [|split]].
  - intros expr. unfold isValidExpression, isValidExpression_fuel.
    destruct (scan (S (length expr)) expr) as [[v|i bal st]| |] eqn:E;
      cbn [bind].
    + apply scan_returns in E. subst v.
      split; [discriminate|intros (i & H); discriminate].
    + split.
      * destruct (bal =? 0) eqn:Eb; [|discriminate].
        apply Z.eqb_eq in Eb. subst bal.
        destruct st; [discriminate|]. eauto.
      * intros (j & [= -> -> ->]). reflexivity.
    + split; [discriminate|intros (i & H); discriminate].
    + split; [discriminate|intros (i & H); discriminate].
  - intros expr s H Hws. rewrite (isValidExpression_verdict expr s H).
    unfold verdict. rewrite (walk_spaces s Hws).
    destruct s; reflexivity.
  - intros expr i bal E. unfold isValidExpression, isValidExpression_fuel.
    rewrite E. cbn [bind]. rewrite andb_false_r. reflexivity.
  - repeat split; vm_compute; reflexivity.
Qed.

Lemma accept_iff_final_state_witness :
  isValidExpression (lit "  ") = Done FALSE
  /\ isValidExpression (lit "a+") = Done FALSE
  /\ exists i, scan 5 (lit "a+1") = Done (Next i 0 STATE_EXPECT_OPERATOR).
Proof.
  split; [|split].
  - apply (proj1 (proj2 accept_iff_final_state)
             (lit "  ") (list_ascii_of_string "  ")).
    + literal.
    + reflexivity.
  - apply (proj1 (proj2 (proj2 accept_iff_final_state)) (lit "a+") 2 0).
    reflexivity.
  - apply (proj1 (proj1 accept_iff_final_state (lit "a+1"))).
    reflexivity.
Defined.

(** C2.  In an accepted string the '(' are as many as the ')', and no
    prefix has more ')' than '('.  In terms of the scan: at every
    configuration the loop visits, the balance is the surplus of '('
    over ')' among the characters in front of the index and is not
    negative, and the scan ends with balance 0. *)
Theorem accepted_parentheses_balanced (expr s : list ascii) :
  c_string expr s ->
  isValidExpression expr = Done TRUE ->
  count "(" s = count ")" s
  /\ (forall k, count ")" (firstn k s) <= count "(" (firstn k s))
  /\ (forall i bal st,
         visits expr (Z.of_nat (length s)) i bal st ->
         0 <= bal /\ bal = balance (firstn (Z.to_nat i) s))
  /\ exists i st, scan (S (length expr)) expr = Done (Next i 0 st).
Proof.
  intros H Hacc. rewrite (isValidExpression_verdict expr s H) in Hacc.
  injection Hacc as Hv. apply verdict_TRUE in Hv.
  destruct Hv as (m & Hw & Hm).
  destruct (walk_balance s 0 Operand 0 m Hw ltac:(lia)) as (Hb & Hp).
  unfold balance in Hb, Hp.
  split; [lia|]. split; [intros k; specialize (Hp k); lia|]. split.
  - intros i bal st V. destruct H as ((rest & ->) & _ & Hf).
    apply (visits_inv s (NUL :: rest) Hf) in V.
    destruct V as (_ & Hr & (m' & Hw' & _) & _).
    apply walk_balance in Hw'; lia.
  - exists (Z.of_nat (length s)), (state_of m).
    rewrite (scan_ahead expr s);
      [|assumption|apply c_string_length in H; lia].
    unfold ahead. simpl skipn. cbn [mode_of]. rewrite Hw. reflexivity.
Qed.

Lemma accepted_parentheses_balanced_witness :
  count "(" (list_ascii_of_string "(a+b)*c")
  = count ")" (list_ascii_of_string "(a+b)*c").
Proof.
  apply (accepted_parentheses_balanced
           (lit "(a+b)*c") (list_ascii_of_string "(a+b)*c")).
  - literal.
  - vm_compute. reflexivity.
Defined.

(** C3.  A digit, a lowercase letter or '(' read in
    [STATE_EXPECT_OPERATOR] makes the body return [FALSE] on the spot,
    whatever follows; so a string in which the loop comes to such a
    character in that state is rejected.  "7a" and "(a+b)(c-d)" are. *)
Theorem adjacent_operands_rejected :
  (forall fuel expr len i bal c,
      load expr i = Done c ->
      isdigit c = true \/ islower c = true \/ c = "("%char ->
      loop_body fuel expr len i bal STATE_EXPECT_OPERATOR
      = Done (Return FALSE)
      /\ (i < len ->
          for_loop (S fuel) expr len i bal STATE_EXPECT_OPERATOR
          = Done (Return FALSE)))
  /\ (forall expr s i bal c,
         c_string expr s ->
         visits expr (Z.of_nat (length s)) i bal STATE_EXPECT_OPERATOR ->
         i < Z.of_nat (length s) ->
         load expr i = Done c ->
         isdigit c = true \/ islower c = true \/ c = "("%char ->
         isValidExpression expr = Done FALSE)
  /\ isValidExpression (lit "7a") = Done FALSE
  /\ isValidExpression (lit "(a+b)(c-d)") = Done FALSE.
Proof.
  assert (K : forall c,
             isdigit c = true \/ islower c = true \/ c = "("%char ->
             isspace c = false /\ is_operator c = false
             /\ (c =? ")")%char = false).
  { intros c Hc. destruct (class_facts c) as (Fd & Fl & Fo & _).
    destruct Hc as [Hc|[Hc| ->]]; [apply Fd in Hc|apply Fl in Hc|];
      tauto. }
  split; [|split].
  - intros fuel expr len i bal c Hload Hc.
    destruct (K c Hc) as (Hsp & Hop & Hcl).
    assert (B : loop_body fuel expr len i bal STATE_EXPECT_OPERATOR
                = Done (Return FALSE)).
    { unfold loop_body. rewrite Hload. cbn [bind]. rewrite Hsp.
      unfold transition. unfold is_operator in Hop.
      destruct (strchr operators c); [discriminate|].
      rewrite Hcl. reflexivity. }
    split; [exact B|]. intros Hlt. simpl.
    apply Z.ltb_lt in Hlt. rewrite Hlt, B. reflexivity.
  - intros expr s i bal c H V Hi Hload Hc.
    destruct (K c Hc) as (Hsp & Hop & Hcl).
    apply (visits_stuck expr s i bal STATE_EXPECT_OPERATOR); auto.
    assert (c = nth (Z.to_nat i) s NUL) as <-.
    { destruct H as ((rest & ->) & _ & Hf).
      pose proof (visits_inv s (NUL :: rest) Hf _ _ _ V) as (Hr & _).
      rewrite load_app in Hload by lia. congruence. }
    simpl. unfold step, after_operand. rewrite Hsp, Hop, Hcl. reflexivity.
  - split; vm_compute; reflexivity.
Qed.

Lemma adjacent_operands_rejected_witness :
  visits (lit "7a") 2 1 0 STATE_EXPECT_OPERATOR
  /\ load (lit "7a") 1 = Done "a"%char
  /\ loop_body 0 (lit "7a") 2 1 0 STATE_EXPECT_OPERATOR = Done (Return FALSE)
  /\ isValidExpression (lit "7a") = Done FALSE.
Proof.
  assert (V : visits (lit "7a") 2 1 0 STATE_EXPECT_OPERATOR).
  { apply (visits_again (lit "7a") 2 1%nat 0 0 STATE_EXPECT_OPERAND
             0 0 STATE_EXPECT_OPERATOR);
      [apply visits_entry|lia|reflexivity]. }
  split; [exact V|]. split; [reflexivity|]. split.
  { refine (proj1 (proj1 adjacent_operands_rejected
                       0%nat (lit "7a") 2 1 0 "a"%char _ _));
      [reflexivity|right; left; reflexivity]. }
  apply (proj1 (proj2 adjacent_operands_rejected)
           (lit "7a") (list_ascii_of_string "7a") 1 0 "a"%char).
  - literal.
  - exact V.
  - simpl. lia.
  - reflexivity.
  - right. left. reflexivity.
Defined.

Lemma firstn_length_app (p q : list ascii) :
  firstn (length p) (p ++ q) = p.
Proof. induction p as [|c p IH]; simpl; [reflexivity|f_equal; exact IH]. Qed.

(** C4.  '+' or '-' read in [STATE_EXPECT_OPERAND] is a unary sign: the
    body goes on with the state unchanged; read in
    [STATE_EXPECT_OPERATOR] the same character is the binary operator
    and leads to [STATE_EXPECT_OPERAND], where a sign may follow.  So
    any number of signs put where the loop expects an operand leaves
    the verdict as it was: "--a", "+-+a" and "a++b" are accepted. *)
Theorem unary_sign_keeps_operand_state :
  (forall fuel expr len i bal c,
      load expr i = Done c -> is_sign c = true -> 0 <= bal ->
      loop_body fuel expr len i bal STATE_EXPECT_OPERAND
      = Done (Next i bal STATE_EXPECT_OPERAND)
      /\ loop_body fuel expr len i bal STATE_EXPECT_OPERATOR
         = Done (Next i bal STATE_EXPECT_OPERAND))
  /\ (forall expr expr' p signs q bal,
         c_string expr (p ++ q) ->
         c_string expr' (p ++ signs ++ q) ->
         forallb is_sign signs = true ->
         visits expr (Z.of_nat (length (p ++ q)))
           (Z.of_nat (length p)) bal STATE_EXPECT_OPERAND ->
         isValidExpression expr' = isValidExpression expr)
  /\ isValidExpression (lit "--a") = Done TRUE
  /\ isValidExpression (lit "+-+a") = Done TRUE
  /\ isValidExpression (lit "a++b") = Done TRUE.
Proof.
  split; [|split].
  - intros fuel expr len i bal c Hload Hs Hb.
    destruct (class_facts c) as (_ & _ & _ & _ & Fs).
    destruct (Fs Hs) as (Hsp & Hop & Hd & Hl & Ho).
    unfold loop_body. rewrite Hload. cbn [bind]. rewrite Hsp.
    unfold transition. rewrite Hd, Hl, Ho. fold (is_sign c). rewrite Hs.
    unfold is_operator in Hop.
    destruct (strchr operators c); [|discriminate]. cbn [bind].
    replace (bal <? 0) with false by (symmetry; apply Z.ltb_ge; lia).
    split; reflexivity.
  - intros expr expr' p signs q bal H H' Hs V.
    rewrite (isValidExpression_verdict _ _ H),
            (isValidExpression_verdict _ _ H').
    f_equal. destruct H as ((rest & ->) & _ & Hf).
    apply (visits_inv (p ++ q) (NUL :: rest) Hf) in V.
    destruct V as (_ & _ & (m & Hw & Hm & _) & _).
    rewrite Nat2Z.id, firstn_length_app in Hw.
    destruct m; try discriminate.
    unfold verdict. rewrite (walk_app p q), (walk_app p (signs ++ q)), Hw.
    cbv beta iota. rewrite walk_app, (walk_signs signs Hs). reflexivity.
  - repeat split; vm_compute; reflexivity.
Qed.

Lemma unary_sign_keeps_operand_state_witness :
  visits (lit "a+b") 3 2 0 STATE_EXPECT_OPERAND
  /\ loop_body 0 (lit "--a") 3 0 0 STATE_EXPECT_OPERAND
     = Done (Next 0 0 STATE_EXPECT_OPERAND)
  /\ isValidExpression (lit "a+-+b") = isValidExpression (lit "a+b").
Proof.
  assert (V : visits (lit "a+b") 3 2 0 STATE_EXPECT_OPERAND).
  { apply (visits_again (lit "a+b") 3 1%nat 1 0 STATE_EXPECT_OPERATOR
             1 0 STATE_EXPECT_OPERAND); [|lia|reflexivity].
    apply (visits_again (lit "a+b") 3 1%nat 0 0 STATE_EXPECT_OPERAND
             0 0 STATE_EXPECT_OPERATOR);
      [apply visits_entry|lia|reflexivity]. }
  split; [exact V|]. split.
  { refine (proj1 (proj1 unary_sign_keeps_operand_state
                       0%nat (lit "--a") 3 0 0 "-"%char _ _ _));
      [reflexivity|reflexivity|lia]. }
  apply (proj1 (proj2 unary_sign_keeps_operand_state)
           (lit "a+b") (lit "a+-+b")
           (list_ascii_of_string "a+") (list_ascii_of_string "-+")
           (list_ascii_of_string "b") 0).
  - literal.
  - literal.
  - reflexivity.
  - exact V.
Defined.

(** C5.  A digit read in [STATE_EXPECT_OPERAND] takes the digits that
    follow it with it: the body ends at the last digit of the run, in
    [STATE_EXPECT_OPERATOR], however long the run is.  The verdict
    therefore does not change when a run of digits is replaced by
    another one; "123+45" is accepted. *)
Theorem digit_run_is_one_operand :
  (forall s rest fuel i bal,
      Z.of_nat (length s) <= INT_MAX ->
      0 <= i < Z.of_nat (length s) -> 0 <= bal ->
      isdigit (nth (Z.to_nat i) s NUL) = true ->
      Z.of_nat (length s) - i <= Z.of_nat fuel ->
      exists i',
        loop_body fuel (s ++ rest) (Z.of_nat (length s)) i bal
          STATE_EXPECT_OPERAND
        = Done (Next i' bal STATE_EXPECT_OPERATOR)
        /\ digit_run s i i')
  /\ (forall expr expr' p ds ds' q,
         c_string expr (p ++ ds ++ q) ->
         c_string expr' (p ++ ds' ++ q) ->
         ds <> [] -> forallb isdigit ds = true ->
         ds' <> [] -> forallb isdigit ds' = true ->
         isValidExpression expr = isValidExpression expr')
  /\ isValidExpression (lit "123+45") = Done TRUE.
Proof.
  split; [|split].
  - intros s rest fuel i bal Hf Hi Hb Hd Hfuel.
    destruct (skip_digits_total s rest Hf fuel i Hi Hfuel) as [i' Hsk].
    exists i'. split; [|eapply skip_digits_sound; eauto].
    destruct (class_facts (nth (Z.to_nat i) s NUL)) as (Fd & _).
    destruct (Fd Hd) as (Hsp & _).
    unfold loop_body. rewrite load_app by lia. cbn [bind].
    rewrite Hsp. unfold transition. rewrite Hd, Hsk. cbn [bind].
    replace (bal <? 0) with false by (symmetry; apply Z.ltb_ge; lia).
    reflexivity.
  - intros expr expr' p ds ds' q H H' Hne Hd Hne' Hd'.
    rewrite (isValidExpression_verdict _ _ H),
            (isValidExpression_verdict _ _ H').
    f_equal. unfold verdict.
    rewrite (walk_app p (ds ++ q)), (walk_app p (ds' ++ q)).
    destruct (walk p 0 Operand) as [[b m]|]; [|reflexivity].
    rewrite !walk_app.
    rewrite (walk_digits ds Hne Hd), (walk_digits ds' Hne' Hd').
    reflexivity.
  - vm_compute. reflexivity.
Qed.

Lemma digit_run_is_one_operand_witness :
  (exists i',
      loop_body 6 (lit "123+45") 6 0 0 STATE_EXPECT_OPERAND
      = Done (Next i' 0 STATE_EXPECT_OPERATOR)
      /\ digit_run (list_ascii_of_string "123+45") 0 i')
  /\ isValidExpression (lit "123+45") = isValidExpression (lit "7+45").
Proof.
  split.
  - apply (proj1 digit_run_is_one_operand
             (list_ascii_of_string "123+45") [NUL] 6%nat 0 0).
    + unfold INT_MAX. simpl. lia.
    + simpl. lia.
    + lia.
    + reflexivity.
    + simpl. lia.
  - apply (proj1 (proj2 digit_run_is_one_operand)
             (lit "123+45") (lit "7+45") []
             (list_ascii_of_string "123") (list_ascii_of_string "7")
             (list_ascii_of_string "+45")).
    + literal.
    + literal.
    + discriminate.
    + reflexivity.
    + discriminate.
    + reflexivity.
Defined.

(** C6.  When the step on a character brings the balance below zero
    the body returns [FALSE] there and then, and the loop with it; the
    scan goes no further.  Hence a string with a prefix holding more
    ')' than '(' is rejected, whatever comes after: in "a)(b+c)" it is
    this check, at index 1, that rejects. *)
Theorem negative_balance_rejected_at_once :
  (forall fuel expr len i bal st c i' bal' st',
      load expr i = Done c -> isspace c = false ->
      transition fuel expr len i bal st c = Done (Next i' bal' st') ->
      bal' < 0 ->
      loop_body fuel expr len i bal st = Done (Return FALSE)
      /\ (i < len ->
          for_loop (S fuel) expr len i bal st = Done (Return FALSE)))
  /\ (forall expr s k,
         c_string expr s -> balance (firstn k s) < 0 ->
         isValidExpression expr = Done FALSE)
  /\ (visits (lit "a)(b+c)") 7 1 0 STATE_EXPECT_OPERATOR
      /\ transition 0 (lit "a)(b+c)") 7 1 0 STATE_EXPECT_OPERATOR ")"
         = Done (Next 1 (-1) STATE_EXPECT_OPERATOR)
      /\ loop_body 0 (lit "a)(b+c)") 7 1 0 STATE_EXPECT_OPERATOR
         = Done (Return FALSE)
      /\ isValidExpression (lit "a)(b+c)") = Done FALSE).
Proof.
  split; [|split].
  - intros fuel expr len i bal st c i' bal' st' Hload Hsp Ht Hneg.
    assert (B : loop_body fuel expr len i bal st = Done (Return FALSE)).
    { unfold loop_body. rewrite Hload. cbn [bind]. rewrite Hsp, Ht.
      cbn [bind]. apply Z.ltb_lt in Hneg. rewrite Hneg. reflexivity. }
    split; [exact B|]. intros Hlt. simpl.
    apply Z.ltb_lt in Hlt. rewrite Hlt, B. reflexivity.
  - intros expr s k H Hneg. rewrite (isValidExpression_verdict _ _ H).
    f_equal. apply verdict_rejected.
    destruct (walk s 0 Operand) as [[b m]|] eqn:E; [|reflexivity].
    apply walk_balance in E; [|lia]. destruct E as (_ & E).
    specialize (E k). lia.
  - split; [|repeat split; vm_compute; reflexivity].
    apply (visits_again (lit "a)(b+c)") 7 1%nat 0 0 STATE_EXPECT_OPERAND
             0 0 STATE_EXPECT_OPERATOR);
      [apply visits_entry|lia|reflexivity].
Qed.

Lemma negative_balance_rejected_at_once_witness :
  balance (firstn 2 (list_ascii_of_string "a)+(b")) < 0
  /\ balance (list_ascii_of_string "a)+(b") = 0
  /\ isValidExpression (lit "a)+(b") = Done FALSE
  /\ for_loop 1 (lit "a)+(b") 5 1 0 STATE_EXPECT_OPERATOR
     = Done (Return FALSE).
Proof.
  split; [vm_compute; reflexivity|]. split; [reflexivity|]. split.
  - apply (proj1 (proj2 negative_balance_rejected_at_once)
             (lit "a)+(b") (list_ascii_of_string "a)+(b") 2%nat).
    + literal.
    + vm_compute. reflexivity.
  - refine (proj2 (proj1 negative_balance_rejected_at_once
                       0%nat (lit "a)+(b") 5 1 0 STATE_EXPECT_OPERATOR
                       ")"%char 1 (-1) STATE_EXPECT_OPERATOR _ _ _ _) _);
      [reflexivity|reflexivity|reflexivity|lia|lia].
Defined.

(** C7.  On every C string the call completes and returns [TRUE] or
    [FALSE]: no read leaves the buffer and neither loop runs on for
    ever (more fuel changes nothing).  The body completes on every
    character in either state.  No read touches index [len] or beyond:
    the inner loop and the whole scan complete, with the same result,
    on a buffer that stops right after the last character. *)
Theorem validator_total (expr s : list ascii) :
  c_string expr s ->
  (isValidExpression expr = Done TRUE
   \/ isValidExpression expr = Done FALSE)
  /\ (forall fuel, (length s < fuel)%nat ->
        isValidExpression_fuel fuel expr = isValidExpression expr)
  /\ (forall fuel i bal st,
        0 <= i < Z.of_nat (length s) ->
        Z.of_nat (length s) - i <= Z.of_nat fuel ->
        exists r,
          loop_body fuel expr (Z.of_nat (length s)) i bal st = Done r)
  /\ (forall fuel i,
        0 <= i < Z.of_nat (length s) ->
        Z.of_nat (length s) - i <= Z.of_nat fuel ->
        exists i', skip_digits fuel s (Z.of_nat (length s)) i = Done i')
  /\ (forall fuel, (length s < fuel)%nat ->
        for_loop fuel s (Z.of_nat (length s)) 0 0 STATE_EXPECT_OPERAND
        = scan fuel expr).
Proof.
  intros H. pose proof (isValidExpression_verdict expr s H) as E.
  split; [|split; [|split; [|split]]].
  - rewrite E. destruct (verdict_cases s) as [-> | ->]; auto.
  - intros fuel Hfuel. rewrite E.
    apply isValidExpression_fuel_verdict; assumption.
  - intros fuel i bal st Hi Hfuel. destruct H as ((rest & ->) & _ & Hf).
    apply loop_body_total; assumption.
  - intros fuel i Hi Hfuel. destruct H as (_ & _ & Hf).
    pose proof (skip_digits_total s [] Hf fuel i Hi Hfuel) as G.
    rewrite app_nil_r in G. exact G.
  - intros fuel Hfuel. rewrite (scan_ahead expr s) by assumption.
    destruct H as (_ & _ & Hf).
    pose proof (for_loop_ahead s [] Hf fuel 0 0 STATE_EXPECT_OPERAND) as G.
    rewrite app_nil_r in G. apply G; lia.
Qed.

Lemma validator_total_witness :
  isValidExpression (lit "(a+b)*c") = Done TRUE
  \/ isValidExpression (lit "(a+b)*c") = Done FALSE.
Proof.
  apply (validator_total (lit "(a+b)*c") (list_ascii_of_string "(a+b)*c")).
  literal.
Defined.

(** C8.  Whitespace is skipped but it ends a number: a digit, then
    whitespace, then a digit is an operand next to an operand, and the
    string is rejected wherever this occurs.  Deleting whitespace can
    therefore change the verdict: "1 2" is rejected and "12" accepted,
    while "12 + 3" is accepted. *)
Theorem whitespace_ends_number :
  (forall expr p d1 ws d2 q,
      c_string expr (p ++ d1 :: ws ++ d2 :: q) ->
      isdigit d1 = true -> isdigit d2 = true ->
      ws <> [] -> forallb isspace ws = true ->
      isValidExpression expr = Done FALSE)
  /\ isValidExpression (lit "1 2") = Done FALSE
  /\ isValidExpression (lit "12") = Done TRUE
  /\ isValidExpression (lit "12 + 3") = Done TRUE.
Proof.
  split; [|repeat split; vm_compute; reflexivity].
  intros expr p d1 ws d2 q H Hd1 Hd2 Hne Hws.
  rewrite (isValidExpression_verdict _ _ H). f_equal.
  apply verdict_rejected. rewrite walk_app.
  destruct (walk p 0 Operand) as [[b m]|]; [|reflexivity].
  change (d1 :: ws ++ d2 :: q) with ([d1] ++ ws ++ d2 :: q).
  rewrite walk_app, (walk_digits [d1]); [|discriminate|simpl; rewrite Hd1; auto].
  destruct m; try reflexivity;
    rewrite walk_app, (walk_spaces ws Hws);
    destruct ws as [|w ws]; try congruence;
    destruct (class_facts d2) as (Fd & _);
    destruct (Fd Hd2) as (Hsp & Hop & Hcl);
    simpl; unfold step, after_operand; rewrite Hsp, Hop, Hcl; reflexivity.
Qed.

Lemma whitespace_ends_number_witness :
  isValidExpression (lit "a+1  2") = Done FALSE.
Proof.
  apply (proj1 whitespace_ends_number (lit "a+1  2")
           (list_ascii_of_string "a+") "1"%char
           (list_ascii_of_string "  ") "2"%char []).
  - literal.
  - reflexivity.
  - reflexivity.
  - discriminate.
  - reflexivity.
Defined.

(** C9.  Empty parentheses are rejected: when the first character
    after a '(' that is not whitespace is ')', the validator returns
    [FALSE].  After '(' an operand is expected, and ')' is none.  "()"
    and "a+()" are rejected. *)
Theorem empty_parentheses_rejected :
  (forall expr p ws q,
      c_string expr (p ++ "("%char :: ws ++ ")"%char :: q) ->
      forallb isspace ws = true ->
      isValidExpression expr = Done FALSE)
  /\ isValidExpression (lit "()") = Done FALSE
  /\ isValidExpression (lit "a+()") = Done FALSE.
Proof.
  split; [|split; vm_compute; reflexivity].
  intros expr p ws q H Hws.
  rewrite (isValidExpression_verdict _ _ H). f_equal.
  apply verdict_rejected. rewrite walk_app.
  destruct (walk p 0 Operand) as [[b m]|]; [|reflexivity].
  destruct m; try reflexivity.
  change (walk ("("%char :: ws ++ ")"%char :: q) b Operand)
    with (walk (ws ++ ")"%char :: q) (b + 1) Operand).
  rewrite walk_app, (walk_spaces ws Hws).
  destruct ws; reflexivity.
Qed.

Lemma empty_parentheses_rejected_witness :
  isValidExpression (lit "a*( )+b") = Done FALSE.
Proof.
  apply (proj1 empty_parentheses_rejected (lit "a*( )+b")
           (list_ascii_of_string "a*") (list_ascii_of_string " ")
           (list_ascii_of_string "+b")).
  - literal.
  - reflexivity.
Defined.

(** C10.  A bare operand is a valid expression: one lowercase letter,
    or a non-empty run of digits, with any number of unary signs in
    front and nothing else, is accepted.  "a" and "123" are. *)
Theorem bare_operand_accepted :
  (forall expr signs body,
      c_string expr (signs ++ body) ->
      forallb is_sign signs = true ->
      (exists c, body = [c] /\ islower c = true)
      \/ (body <> [] /\ forallb isdigit body = true) ->
      isValidExpression expr = Done TRUE)
  /\ isValidExpression (lit "a") = Done TRUE
  /\ isValidExpression (lit "123") = Done TRUE.
Proof.
  split; [|split; vm_compute; reflexivity].
  intros expr signs body H Hs Hbody.
  rewrite (isValidExpression_verdict _ _ H). f_equal.
  unfold verdict. rewrite walk_app, (walk_signs signs Hs).
  destruct Hbody as [(c & -> & Hl)|(Hne & Hd)].
  - destruct (class_facts c) as (_ & Fl & _).
    destruct (Fl Hl) as (Hsp & _).
    assert (Hd : isdigit c = false).
    { revert Hl. destruct c as [[] [] [] [] [] [] [] []]; vm_compute;
        congruence. }
    simpl. unfold step. rewrite Hsp, Hd, Hl. reflexivity.
  - rewrite (walk_digits body Hne Hd). reflexivity.
Qed.

Lemma bare_operand_accepted_witness :
  isValidExpression (lit "-+-42") = Done TRUE.
Proof.
  apply (proj1 bare_operand_accepted (lit "-+-42")
           (list_ascii_of_string "-+-") (list_ascii_of_string "42")).
  - literal.
  - reflexivity.
  - right. split; [discriminate|reflexivity].
Defined.

(** * Beyond the claims: the rest of the validator *)

(** ** main: reading the line *)

Lemma no_nul_app (a b : list ascii) :
  no_nul (a ++ b) = no_nul a && no_nul b.
Proof. apply forallb_app. Qed.

(** A buffer that ends in NUL holds a C string. *)
Lemma cut_at_nul (l : list ascii) :
  exists s rest,
    l ++ [NUL] = s ++ NUL :: rest /\ no_nul s = true
    /\ (length s <= length l)%nat.
Proof.
  induction l as [|c l (s & rest & E & Hn & Hl)].
  - exists [], []. repeat split; auto.
  - destruct (c =? NUL)%char eqn:Ec.
    + apply Ascii.eqb_eq in Ec. subst c.
      exists [], (l ++ [NUL]). repeat split; simpl; auto. lia.
    + exists (c :: s), rest. simpl. rewrite E, Ec, Hn.
      repeat split; auto. lia.
Qed.

(** [strchr] on a buffer that holds a C string finds the first
    occurrence inside the string, or nothing. *)
Lemma strchr_buffer (c : ascii) (s rest : list ascii) :
  no_nul s = true -> c <> NUL ->
  match strchr (s ++ NUL :: rest) c with
  | Some k => exists a b, s = a ++ c :: b /\ length a = k /\ ~ In c a
  | None => ~ In c s
  end.
Proof.
  intros Hn Hc. induction s as [|x s IH]; cbn [app strchr].
  - destruct (NUL =? c)%char eqn:E.
    + apply Ascii.eqb_eq in E. congruence.
    + rewrite Ascii.eqb_refl. intros [].
  - cbn [no_nul forallb] in Hn. apply andb_prop in Hn.
    destruct Hn as [Hx Hs]. apply negb_true_iff in Hx.
    destruct (x =? c)%char eqn:E.
    + apply Ascii.eqb_eq in E. subst x.
      exists [], s. repeat split; auto.
    + rewrite Hx. apply Ascii.eqb_neq in E.
      specialize (IH Hs).
      destruct (strchr (s ++ NUL :: rest) c) as [k|]; cbn [option_map].
      * destruct IH as (a & b & -> & <- & Hin).
        exists (x :: a), b. repeat split; auto.
        simpl. intros [H|H]; auto.
      * intros [H|H]; auto.
Qed.

Lemma store_app (a b : list ascii) (c x : ascii) :
  store (a ++ c :: b) (length a) x = a ++ x :: b.
Proof. induction a as [|y a IH]; simpl; [reflexivity|f_equal; exact IH]. Qed.

Lemma fgets_chars_length (room : nat) :
  forall stream, (length (fgets_chars room stream) <= room)%nat.
Proof.
  induction room as [|room IH]; intros [|c stream]; simpl; try lia.
  destruct (c =? newline)%char; simpl; [lia|].
  specialize (IH stream). lia.
Qed.

Lemma fgets_chars_firstn (room : nat) :
  forall stream,
    fgets_chars room (firstn room stream) = fgets_chars room stream.
Proof.
  induction room as [|room IH]; intros [|c stream]; simpl; try reflexivity.
  destruct (c =? newline)%char; [reflexivity|]. f_equal. apply IH.
Qed.

Lemma fgets_chars_line (room : nat) :
  forall ln rest,
    ~ In newline ln -> (length ln < room)%nat ->
    fgets_chars room (ln ++ newline :: rest) = ln ++ [newline].
Proof.
  induction room as [|room IH]; intros ln rest Hin Hl; [lia|].
  destruct ln as [|c ln]; simpl.
  - reflexivity.
  - destruct (c =? newline)%char eqn:E.
    + apply Ascii.eqb_eq in E. subst c. exfalso. apply Hin. left. reflexivity.
    + f_equal. apply IH; [|simpl in Hl; lia].
      intros H. apply Hin. right. exact H.
Qed.

Lemma fgets_chars_all (room : nat) :
  forall ln,
    ~ In newline ln -> (length ln <= room)%nat ->
    fgets_chars room ln = ln.
Proof.
  induction room as [|room IH]; intros [|c ln] Hin Hl; simpl in *;
    try reflexivity; try lia.
  destruct (c =? newline)%char eqn:E.
  - apply Ascii.eqb_eq in E. subst c. exfalso. apply Hin. left. reflexivity.
  - f_equal. apply IH; [|lia]. intros H. apply Hin. right. exact H.
Qed.

Lemma room_of_buffer : Z.to_nat (BUFFER_SIZE - 1) = 1025%nat.
Proof. reflexivity. Qed.

(** The buffer [main] hands to the validator always holds a C string,
    and one without a newline in it. *)
Lemma main_buffer (line : list ascii) :
  (length line <= 1025)%nat ->
  exists s,
    c_string (match strchr (line ++ [NUL]) newline with
              | Some newline_pos => store (line ++ [NUL]) newline_pos NUL
              | None => line ++ [NUL]
              end) s
    /\ ~ In newline s.
Proof.
  intros Hl. destruct (cut_at_nul line) as (s & rest & E & Hn & Hs).
  rewrite E.
  assert (Hnl : newline <> NUL) by discriminate.
  pose proof (strchr_buffer newline s rest Hn Hnl) as H.
  destruct (strchr (s ++ NUL :: rest) newline) as [k|].
  - destruct H as (a & b & -> & <- & Hin).
    exists a. split; [|assumption].
    rewrite <- app_assoc. simpl app. rewrite store_app.
    rewrite no_nul_app in Hn. apply andb_prop in Hn.
    rewrite length_app in Hs.
    split; [eauto|]. split; [tauto|]. unfold INT_MAX. lia.
  - exists s. split; [|assumption].
    split; [eauto|]. split; [assumption|]. unfold INT_MAX. lia.
Qed.

(** X1.  main never fails: whatever is on standard input, it exits with
    status 0 after printing one of its two lines. *)
Theorem main_total (stdin : list ascii) :
  main stdin = Done (0, chars "correct" ++ [newline])
  \/ main stdin = Done (0, chars "incorrect" ++ [newline]).
Proof.
  unfold main, fgets. destruct stdin as [|c stdin]; [auto|].
  rewrite room_of_buffer.
  set (line := fgets_chars 1025 (c :: stdin)).
  destruct (main_buffer line) as (s & H & _).
  { apply fgets_chars_length. }
  rewrite (isValidExpression_verdict _ s H). cbn [bind].
  destruct (verdict_cases s) as [-> | ->]; auto.
Qed.

(** X2.  main judges the first line without its newline, and nothing that
    comes after it; a last line without a newline is judged as it is. *)
Theorem main_judges_first_line (ln : list ascii) :
  no_nul ln = true -> ~ In newline ln ->
  (forall rest,
      (length ln <= 1024)%nat ->
      main (ln ++ newline :: rest)
      = v <- isValidExpression (ln ++ [NUL]) ;; Done (0, message v))
  /\ (ln <> [] -> (length ln <= 1025)%nat ->
      main ln = v <- isValidExpression (ln ++ [NUL]) ;; Done (0, message v)).
Proof.
  intros Hn Hin.
  assert (Hnl : newline <> NUL) by discriminate.
  assert (V : forall tail, (length ln <= 1025)%nat ->
                isValidExpression (ln ++ NUL :: tail) = Done (verdict ln)).
  { intros tail Hl. apply isValidExpression_verdict.
    split; [eauto|]. split; [assumption|]. unfold INT_MAX. lia. }
  split.
  - intros rest Hl. unfold main, fgets. rewrite room_of_buffer.
    destruct (ln ++ newline :: rest) as [|c l] eqn:E;
      [destruct ln; discriminate|].
    rewrite <- E. rewrite fgets_chars_line by (auto; lia).
    rewrite <- app_assoc. simpl app.
    assert (S1 : strchr (ln ++ [newline; NUL]) newline = Some (length ln)).
    { clear - Hn Hin. induction ln as [|x ln IH]; simpl; [reflexivity|].
      simpl in Hn. apply andb_prop in Hn. destruct Hn as [Hx Hs].
      apply negb_true_iff in Hx. rewrite Hx.
      destruct (x =? newline)%char eqn:Ex.
      - apply Ascii.eqb_eq in Ex. subst x. exfalso. apply Hin. left. reflexivity.
      - rewrite IH; auto. intros H. apply Hin. right. exact H. }
    rewrite S1, store_app. rewrite (V [NUL]) by lia.
    change (ln ++ [NUL]) with (ln ++ NUL :: []). rewrite (V []) by lia.
    reflexivity.
  - intros Hne Hl. unfold main, fgets. rewrite room_of_buffer.
    destruct ln as [|c l] eqn:E; [congruence|]. rewrite <- E in *.
    rewrite fgets_chars_all by assumption.
    pose proof (strchr_buffer newline ln [] Hn Hnl) as H.
    destruct (strchr (ln ++ [NUL]) newline) as [k|].
    + destruct H as (a & b & Eq & _). exfalso. apply Hin.
      rewrite Eq. apply in_or_app. right. left. reflexivity.
    + reflexivity.
Qed.

Lemma main_judges_first_line_witness :
  main (chars "(a+b)*c" ++ newline :: chars "7a")
  = Done (0, chars "correct" ++ [newline])
  /\ main (chars "7a") = Done (0, chars "incorrect" ++ [newline]).
Proof.
  split.
  - refine (eq_trans
              (proj1 (main_judges_first_line (chars "(a+b)*c") _ _)
                 (chars "7a") _) _);
      [reflexivity|simpl; intuition discriminate|simpl; lia|reflexivity].
  - refine (eq_trans
              (proj2 (main_judges_first_line (chars "7a") _ _) _ _) _);
      [reflexivity|simpl; intuition discriminate|discriminate
      |simpl; lia|reflexivity].
Defined.

(** X3.  main looks at no more than the first [BUFFER_SIZE - 1] bytes: a
    longer line is judged by its first 1025 characters alone. *)
Theorem main_reads_one_buffer (stdin : list ascii) :
  main stdin = main (firstn 1025 stdin).
Proof.
  unfold main, fgets. rewrite room_of_buffer.
  destruct stdin as [|c stdin]; [reflexivity|].
  change (firstn 1025 (c :: stdin)) with (c :: firstn 1024 stdin).
  change (c :: firstn 1024 stdin) with (firstn 1025 (c :: stdin)).
  destruct (firstn 1025 (c :: stdin)) as [|c' l'] eqn:E; [discriminate|].
  rewrite <- E. rewrite fgets_chars_firstn. reflexivity.
Qed.

(** ** isValidExpression: how verdicts compose *)

(** X4.  The validator reads the string and nothing behind its NUL. *)
Theorem verdict_ignores_memory_after_nul (expr expr' s : list ascii) :
  c_string expr s -> c_string expr' s ->
  isValidExpression expr = isValidExpression expr'.
Proof.
  intros H H'.
  rewrite (isValidExpression_verdict _ _ H),
          (isValidExpression_verdict _ _ H').
  reflexivity.
Qed.

Lemma verdict_ignores_memory_after_nul_witness :
  isValidExpression (chars "a+1" ++ NUL :: chars "+")
  = isValidExpression (lit "a+1").
Proof.
  apply (verdict_ignores_memory_after_nul _ _ (chars "a+1")).
  - split; [exists (chars "+"); reflexivity|].
    split; [reflexivity|unfold INT_MAX; simpl; lia].
  - literal.
Defined.

Lemma step_unknown (c : ascii) :
  in_alphabet c = false -> c <> NUL ->
  forall bal m, step c bal m = None.
Proof.
  destruct c as [[] [] [] [] [] [] [] []]; intros H1 H2 bal m;
    try discriminate H1; try (exfalso; apply H2; reflexivity);
    destruct m; reflexivity.
Qed.

Lemma no_nul_In (s : list ascii) : no_nul s = true -> ~ In NUL s.
Proof.
  induction s as [|c s IH]; simpl; [tauto|].
  intros H. apply andb_prop in H. destruct H as [Hc Hs].
  apply negb_true_iff, Ascii.eqb_neq in Hc.
  intros [E|E]; [congruence|]. exact (IH Hs E).
Qed.

(** X5.  A character outside the alphabet of the validator (whitespace,
    digits, lowercase letters, the five operators, the two
    parentheses) makes the string invalid wherever it stands. *)
Theorem unknown_character_rejected (expr p q : list ascii) (c : ascii) :
  c_string expr (p ++ c :: q) ->
  in_alphabet c = false ->
  isValidExpression expr = Done FALSE.
Proof.
  intros H Hc. rewrite (isValidExpression_verdict _ _ H). f_equal.
  apply verdict_rejected. rewrite walk_app.
  destruct (walk p 0 Operand) as [[b m]|]; [|reflexivity].
  simpl. rewrite step_unknown; auto.
  destruct H as (_ & Hn & _). apply no_nul_In in Hn.
  intros ->. apply Hn. apply in_or_app. right. left. reflexivity.
Qed.

Lemma unknown_character_rejected_witness :
  isValidExpression (lit "a+B") = Done FALSE.
Proof.
  apply (unknown_character_rejected (lit "a+B") (chars "a+") [] "B"%char).
  - literal.
  - reflexivity.
Defined.

Lemma step_to_digits (c : ascii) (bal : Z) (m : mode) (bal' : Z) :
  step c bal m = Some (bal', Digits) -> isdigit c = true.
Proof.
  unfold step, after_operand.
  destruct (isspace c); [destruct m; discriminate|].
  destruct (isdigit c); [reflexivity|].
  destruct m;
    repeat match goal with
           | |- context [if ?b then _ else _] => destruct b
           end; discriminate.
Qed.

Lemma walk_to_digits (p : list ascii) (bal bal' : Z) (m : mode) :
  walk p bal m = Some (bal', Digits) -> m <> Digits ->
  ends_in_digit p = true.
Proof.
  unfold ends_in_digit.
  destruct p as [|c p _] using rev_ind.
  - simpl. intros [= _ ->]. congruence.
  - rewrite walk_app, rev_app_distr. simpl.
    destruct (walk p bal m) as [[b1 m1]|]; [|discriminate].
    destruct (step c b1 m1) as [[b2 m2]|] eqn:E; [|discriminate].
    intros [= _ ->] _. eapply step_to_digits, E.
Qed.

(** X6.  Whitespace is ignored wherever it does not part two digits:
    putting it between [p] and [q] leaves the verdict as it was unless
    [p] ends in a digit and [q] starts with one. *)
Theorem whitespace_ignored_outside_numbers
    (expr expr' p ws q : list ascii) :
  c_string expr (p ++ q) ->
  c_string expr' (p ++ ws ++ q) ->
  forallb isspace ws = true ->
  ends_in_digit p && starts_with_digit q = false ->
  isValidExpression expr' = isValidExpression expr.
Proof.
  intros H H' Hws Hd.
  rewrite (isValidExpression_verdict _ _ H),
          (isValidExpression_verdict _ _ H').
  f_equal. unfold verdict.
  rewrite (walk_app p q), (walk_app p (ws ++ q)).
  destruct (walk p 0 Operand) as [[b m]|] eqn:Ep; [|reflexivity].
  rewrite walk_app, (walk_spaces ws Hws).
  destruct ws as [|w ws]; [reflexivity|].
  destruct m; try reflexivity. cbn [state_of mode_of].
  apply walk_to_digits in Ep; [|discriminate].
  rewrite Ep in Hd. simpl in Hd.
  destruct q as [|c q]; [reflexivity|]. simpl in Hd. simpl.
  rewrite (step_after_number c b Digits) by (intros _; exact Hd).
  reflexivity.
Qed.

Lemma whitespace_ignored_outside_numbers_witness :
  isValidExpression (lit "12  +x") = isValidExpression (lit "12+x").
Proof.
  apply (whitespace_ignored_outside_numbers _ _
           (chars "12") (chars "  ") (chars "+x")).
  - literal.
  - literal.
  - reflexivity.
  - reflexivity.
Defined.

Lemma step_lift (c : ascii) (bal : Z) (m : mode) (bal' : Z) (m' : mode)
    (k : Z) :
  0 <= k -> step c bal m = Some (bal', m') ->
  step c (bal + k) m = Some (bal' + k, m').
Proof.
  intros Hk. unfold step, after_operand.
  destruct (isspace c); [intros [= <- <-]; reflexivity|].
  assert (A : (if is_operator c then Some (bal, Operand)
               else if (c =? ")")%char
                    then if bal - 1 <? 0 then None
                         else Some (bal - 1, Operator)
                    else None) = Some (bal', m') ->
              (if is_operator c then Some (bal + k, Operand)
               else if (c =? ")")%char
                    then if bal + k - 1 <? 0 then None
                         else Some (bal + k - 1, Operator)
                    else None) = Some (bal' + k, m')).
  { destruct (is_operator c); [intros [= <- <-]; reflexivity|].
    destruct (c =? ")")%char; [|discriminate].
    destruct (bal - 1 <? 0) eqn:E; [discriminate|].
    apply Z.ltb_ge in E. intros [= <- <-].
    replace (bal + k - 1 <? 0) with false by (symmetry; apply Z.ltb_ge; lia).
    do 2 f_equal. lia. }
  destruct m; auto.
  - destruct (isdigit c); [intros [= <- <-]; reflexivity|].
    destruct (islower c); [intros [= <- <-]; reflexivity|].
    destruct (c =? "(")%char;
      [intros [= <- <-]; do 2 f_equal; lia|].
    destruct (is_sign c); [intros [= <- <-]; reflexivity|discriminate].
  - destruct (isdigit c); [intros [= <- <-]; reflexivity|auto].
Qed.

Lemma walk_lift (l : list ascii) (k : Z) :
  0 <= k ->
  forall bal m bal' m',
    walk l bal m = Some (bal', m') ->
    walk l (bal + k) m = Some (bal' + k, m').
Proof.
  intros Hk. induction l as [|c l IH]; simpl; intros bal m bal' m' H.
  - injection H as <- <-. reflexivity.
  - destruct (step c bal m) as [[b1 m1]|] eqn:E; [|discriminate].
    rewrite (step_lift _ _ _ _ _ k Hk E). apply IH, H.
Qed.

Lemma after_operand_close (bal : Z) :
  after_operand ")" (bal + 1) = if bal <? 0 then None
                                else Some (bal, Operator).
Proof.
  unfold after_operand. change (is_operator ")") with false.
  change ((")" =? ")")%char) with true. cbv iota.
  replace (bal + 1 - 1) with bal by lia. reflexivity.
Qed.

(** X7.  A valid expression in parentheses is a valid expression. *)
Theorem parenthesized_accepted (expr expr' s : list ascii) :
  c_string expr s ->
  c_string expr' ("("%char :: s ++ [")"%char]) ->
  isValidExpression expr = Done TRUE ->
  isValidExpression expr' = Done TRUE.
Proof.
  intros H H' Hacc.
  rewrite (isValidExpression_verdict _ _ H) in Hacc.
  rewrite (isValidExpression_verdict _ _ H'). f_equal.
  injection Hacc as Hv. apply verdict_TRUE in Hv.
  destruct Hv as (m & Hw & Hm).
  unfold verdict.
  change (walk ("("%char :: s ++ [")"%char]) 0 Operand)
    with (walk (s ++ [")"%char]) (0 + 1) Operand).
  rewrite walk_app, (walk_lift s 1 ltac:(lia) _ _ _ _ Hw).
  cbn [walk]. unfold step. change (isspace ")") with false. cbv iota.
  change (isdigit ")") with false.
  destruct m; try discriminate; cbv iota;
    rewrite after_operand_close; reflexivity.
Qed.

Lemma parenthesized_accepted_witness :
  isValidExpression (lit "(a+1)") = Done TRUE.
Proof.
  apply (parenthesized_accepted (lit "a+1") (lit "(a+1)") (chars "a+1")).
  - literal.
  - literal.
  - vm_compute. reflexivity.
Defined.

(** X8.  Two valid expressions joined by one of the operators [+ - * / %]
    make a valid expression. *)
Theorem joined_by_operator_accepted
    (e1 e2 expr s t : list ascii) (op : ascii) :
  c_string e1 s -> c_string e2 t -> c_string expr (s ++ op :: t) ->
  In op operators ->
  isValidExpression e1 = Done TRUE ->
  isValidExpression e2 = Done TRUE ->
  isValidExpression expr = Done TRUE.
Proof.
  intros H1 H2 H Hop A1 A2.
  rewrite (isValidExpression_verdict _ _ H1) in A1.
  rewrite (isValidExpression_verdict _ _ H2) in A2.
  rewrite (isValidExpression_verdict _ _ H). f_equal.
  injection A1 as V1. injection A2 as V2.
  assert (St : forall m, m <> Operand -> step op 0 m = Some (0, Operand)).
  { intros m Hm. simpl in Hop.
    destruct Hop as [<-|[<-|[<-|[<-|[<-|[]]]]]];
      destruct m; try congruence; reflexivity. }
  apply verdict_TRUE in V1. destruct V1 as (m & Hw & Hm).
  unfold verdict. rewrite walk_app, Hw. cbn [walk].
  rewrite St by (destruct m; discriminate).
  exact V2.
Qed.

Lemma joined_by_operator_accepted_witness :
  isValidExpression (lit "(a+1)%-b") = Done TRUE.
Proof.
  apply (joined_by_operator_accepted (lit "(a+1)") (lit "-b")
           (lit "(a+1)%-b") (chars "(a+1)") (chars "-b") "%"%char).
  - literal.
  - literal.
  - literal.
  - simpl. tauto.
  - vm_compute. reflexivity.
  - vm_compute. reflexivity.
Defined.

(** X9.  A rejection by an early return stands whatever follows: when the
    scan of a string leaves the loop by [return], every string that
    starts with it is rejected. *)
Theorem early_return_is_final (expr expr' s t : list ascii) (v : Z) :
  c_string expr s -> c_string expr' (s ++ t) ->
  scan (S (length expr)) expr = Done (Return v) ->
  isValidExpression expr' = Done FALSE.
Proof.
  intros H H' Hs.
  rewrite (isValidExpression_verdict _ _ H'). f_equal.
  apply verdict_rejected, walk_rejected.
  rewrite (scan_ahead expr s) in Hs;
    [|assumption|apply c_string_length in H; lia].
  unfold ahead in Hs. simpl skipn in Hs. cbn [mode_of] in Hs.
  destruct (walk s 0 Operand) as [[b m]|]; [discriminate|reflexivity].
Qed.

Lemma early_return_is_final_witness :
  isValidExpression (lit "a)+(b") = Done FALSE.
Proof.
  apply (early_return_is_final (lit "a)") (lit "a)+(b")
           (chars "a)") (chars "+(b") FALSE).
  - literal.
  - literal.
  - reflexivity.
Defined.

(** X10.  [*], [/] and [%] are binary only: one of them where an operand is
    due, that is right after another operator (whitespace apart),
    makes the string invalid. *)
Theorem binary_operator_needs_left_operand
    (expr p ws q : list ascii) (op c : ascii) :
  c_string expr (p ++ op :: ws ++ c :: q) ->
  In op operators -> In c (chars "*/%") ->
  forallb isspace ws = true ->
  isValidExpression expr = Done FALSE.
Proof.
  intros H Hop Hc Hws.
  rewrite (isValidExpression_verdict _ _ H). f_equal.
  apply verdict_rejected. rewrite walk_app.
  destruct (walk p 0 Operand) as [[b m]|]; [|reflexivity].
  cbn [walk].
  assert (St : step op b m = None \/ step op b m = Some (b, Operand)).
  { simpl in Hop.
    destruct Hop as [<-|[<-|[<-|[<-|[<-|[]]]]]];
      destruct m; auto. }
  destruct St as [-> | ->]; [reflexivity|].
  rewrite walk_app, (walk_spaces ws Hws).
  assert (mode_of (state_of Operand) = Operand) as -> by reflexivity.
  assert (Sc : step c b Operand = None).
  { simpl in Hc. destruct Hc as [<-|[<-|[<-|[]]]]; reflexivity. }
  destruct ws; cbn [walk]; rewrite Sc; reflexivity.
Qed.

Lemma binary_operator_needs_left_operand_witness :
  isValidExpression (lit "a- *b") = Done FALSE.
Proof.
  apply (binary_operator_needs_left_operand (lit "a- *b")
           (chars "a") (chars " ") (chars "b") "-"%char "*"%char).
  - literal.
  - simpl. tauto.
  - simpl. tauto.
  - reflexivity.
Defined.

(** * The phrase search *)

Module SearchFacts.
Import Search.

Lemma code_inj (a b : ascii) : code a = code b -> a = b.
Proof.
  unfold code. intros H. apply N2Z.inj in H.
  rewrite <- (ascii_N_embedding a), <- (ascii_N_embedding b), H.
  reflexivity.
Qed.

Lemma code_eqb (a b : ascii) : (code a =? code b) = (a =? b)%char.
Proof.
  destruct (a =? b)%char eqn:E.
  - apply Ascii.eqb_eq in E. subst. apply Z.eqb_refl.
  - apply Z.eqb_neq. intros H. apply code_inj in H.
    apply Ascii.eqb_neq in E. contradiction.
Qed.

Lemma isSeparator_char (char_signed : bool) (c : ascii) :
  isSeparator (int_of_char char_signed c) = if separator c then 1 else 0.
Proof.
  destruct char_signed, c as [[] [] [] [] [] [] [] []]; reflexivity.
Qed.

Lemma separator_not_nul (c : ascii) : separator c = true -> c <> NUL.
Proof. intros H ->. discriminate H. Qed.

Lemma drop_separators_length (l : list ascii) :
  (length (drop_separators l) <= length l)%nat.
Proof.
  induction l as [|c l IH]; simpl; [lia|].
  destruct (separator c); simpl; lia.
Qed.

Lemma drop_separators_app (a x : list ascii) :
  drop_separators (a ++ x)
  = if forallb separator a then drop_separators x
    else drop_separators a ++ x.
Proof.
  induction a as [|c a IH]; simpl; [reflexivity|].
  destruct (separator c); simpl; [exact IH|reflexivity].
Qed.

Lemma drop_separators_all (g : list ascii) :
  forallb separator g = true -> drop_separators g = [].
Proof.
  induction g as [|c g IH]; simpl; [reflexivity|].
  intros H. apply andb_prop in H. destruct H as [-> H]. auto.
Qed.

Lemma drop_separators_nil (l : list ascii) :
  drop_separators l = [] -> forallb separator l = true.
Proof.
  induction l as [|c l IH]; simpl; [reflexivity|].
  destruct (separator c); [exact IH|discriminate].
Qed.

Lemma drop_separators_no_nul (l : list ascii) :
  no_nul l = true -> no_nul (drop_separators l) = true.
Proof.
  induction l as [|c l IH]; simpl; [reflexivity|].
  intros H. destruct (separator c); [|exact H].
  apply andb_prop in H. tauto.
Qed.

(** Inside a gap the phrase is as good as moved over its separators. *)
Lemma matches_gap (p t : list ascii) :
  matches p true t = matches (drop_separators p) false t.
Proof.
  induction p as [|pc p IH]; simpl; [reflexivity|].
  destruct (separator pc) eqn:E; [exact IH|].
  simpl. rewrite E. reflexivity.
Qed.

Section Loop.

Variable char_signed : bool.

Lemma skip_separators_app (s rest : list ascii) :
  no_nul s = true ->
  skip_separators char_signed (s ++ NUL :: rest)
  = Done (drop_separators s ++ NUL :: rest).
Proof.
  induction s as [|c s IH]; simpl; intros H.
  - rewrite isSeparator_char. reflexivity.
  - apply andb_prop in H. destruct H as [_ H].
    rewrite isSeparator_char. destruct (separator c); simpl; auto.
Qed.

(** The loop on two buffers that hold strings, with fuel for the
    phrase, returns what [matches] says of the strings. *)
Lemma match_loop_matches (fuel : nat) :
  forall ts ps r1 r2,
    no_nul ts = true -> no_nul ps = true -> (length ps < fuel)%nat ->
    match_loop char_signed fuel (ts ++ NUL :: r1) (ps ++ NUL :: r2)
    = Done (if matches ps false ts then TRUE else FALSE).
Proof.
  induction fuel as [|fuel IH]; intros ts ps r1 r2 Ht Hp Hf; [lia|].
  cbn [match_loop]. destruct ps as [|pc ps]; [reflexivity|].
  cbn [app deref bind]. cbn [no_nul forallb] in Hp.
  apply andb_prop in Hp. destruct Hp as [Hpc Hp].
  apply negb_true_iff in Hpc. rewrite Hpc.
  destruct ts as [|tc ts].
  { cbn [app deref bind]. rewrite Ascii.eqb_refl. cbn [matches].
    destruct (separator pc); reflexivity. }
  cbn [app deref bind]. cbn [no_nul forallb] in Ht.
  apply andb_prop in Ht. destruct Ht as [Htc Ht].
  apply negb_true_iff in Htc. rewrite Htc.
  rewrite !isSeparator_char. cbn [matches].
  destruct (separator pc) eqn:Ep; cbn [negb Z.eqb].
  - destruct (separator tc) eqn:Et; cbn [Z.eqb]; [|reflexivity].
    change (pc :: ps ++ NUL :: r2) with ((pc :: ps) ++ NUL :: r2).
    change (tc :: ts ++ NUL :: r1) with ((tc :: ts) ++ NUL :: r1).
    rewrite !skip_separators_app
      by (cbn [no_nul forallb]; rewrite ?Hpc, ?Htc; assumption).
    cbn [bind]. cbn [drop_separators]. rewrite Ep, Et.
    rewrite IH.
    + rewrite matches_gap. reflexivity.
    + apply drop_separators_no_nul, Ht.
    + apply drop_separators_no_nul, Hp.
    + pose proof (drop_separators_length ps). simpl in Hf. lia.
  - rewrite code_eqb. destruct (pc =? tc)%char; [|reflexivity].
    cbn [negb tl]. apply IH; auto. simpl in Hf. lia.
Qed.

Lemma matchPhrase_matches (text phrase ts ps : list ascii) :
  terminated text ts -> terminated phrase ps ->
  matchPhrase char_signed text phrase
  = Done (if matches ps false ts then TRUE else FALSE).
Proof.
  intros ((r1 & ->) & Ht) ((r2 & ->) & Hp). unfold matchPhrase.
  apply match_loop_matches; auto.
  rewrite length_app. simpl. lia.
Qed.

End Loop.

Lemma TRUE_not_FALSE (b : bool) :
  Done (if b then TRUE else FALSE) = Done TRUE <-> b = true.
Proof. destruct b; split; auto; discriminate. Qed.

(** ** Facts about the comparison *)

Lemma matches_prefix (n : nat) :
  forall p r, (length p <= n)%nat -> matches p false (p ++ r) = true.
Proof.
  induction n as [|n IH]; intros [|pc p] r Hl; try reflexivity;
    simpl in Hl; [lia|].
  simpl. destruct (separator pc) eqn:E.
  - rewrite matches_gap, drop_separators_app.
    destruct (forallb separator p) eqn:Ea.
    + rewrite drop_separators_all by assumption. reflexivity.
    + apply IH. pose proof (drop_separators_length p). lia.
  - rewrite Ascii.eqb_refl. apply IH. lia.
Qed.

Lemma matches_gap_end (p : list ascii) :
  matches p true [] = true -> forall t, matches p true t = true.
Proof.
  induction p as [|pc p IH]; simpl; [reflexivity|].
  destruct (separator pc); [exact IH|discriminate].
Qed.

Lemma matches_extend (p : list ascii) :
  forall in_gap t r,
    matches p in_gap t = true -> matches p in_gap (t ++ r) = true.
Proof.
  induction p as [|pc p IH]; simpl; intros in_gap t r H; [reflexivity|].
  destruct (separator pc).
  - destruct in_gap; [auto|].
    destruct t as [|tc t]; [discriminate|]. simpl.
    destruct (separator tc) eqn:Et; [|discriminate].
    simpl in H. rewrite Et in H. rewrite drop_separators_app.
    destruct (forallb separator t) eqn:Ea.
    + rewrite drop_separators_all in H by assumption.
      apply matches_gap_end, H.
    + apply IH, H.
  - destruct t as [|tc t]; [discriminate|]. simpl.
    destruct (pc =? tc)%char; [auto|discriminate].
Qed.

Lemma separator_eqb (pc tc : ascii) :
  separator pc = false -> separator tc = true -> (pc =? tc)%char = false.
Proof.
  intros Hp Ht. apply Ascii.eqb_neq. intros ->. congruence.
Qed.

Lemma matches_text_gap (g1 g2 b : list ascii) :
  g1 <> [] -> forallb separator g1 = true ->
  g2 <> [] -> forallb separator g2 = true ->
  forall p in_gap a,
    matches p in_gap (a ++ g1 ++ b) = matches p in_gap (a ++ g2 ++ b).
Proof.
  intros N1 S1 N2 S2.
  assert (D : forall a, drop_separators (a ++ g1 ++ b) = drop_separators b
                        /\ drop_separators (a ++ g2 ++ b) = drop_separators b
                        \/ exists a', (length a' <= length a)%nat
                             /\ drop_separators (a ++ g1 ++ b) = a' ++ g1 ++ b
                             /\ drop_separators (a ++ g2 ++ b) = a' ++ g2 ++ b).
  { intros a. rewrite !(drop_separators_app a).
    destruct (forallb separator a).
    - left. rewrite !drop_separators_app, S1, S2. auto.
    - right. exists (drop_separators a).
      split; [apply drop_separators_length|auto]. }
  induction p as [|pc p IH]; intros in_gap a; simpl; [reflexivity|].
  destruct (separator pc) eqn:Ep.
  - destruct in_gap; [apply IH|].
    destruct a as [|ac a].
    + destruct g1 as [|x1 g1]; [congruence|].
      destruct g2 as [|x2 g2]; [congruence|].
      cbn [app]. cbn [forallb] in S1, S2.
      apply andb_prop in S1, S2. destruct S1 as [X1 S1], S2 as [X2 S2].
      rewrite X1, X2. cbn [drop_separators]. rewrite X1, X2.
      rewrite !drop_separators_app, S1, S2. reflexivity.
    + cbn [app]. destruct (separator ac) eqn:Ea; [|reflexivity].
      change (ac :: a ++ g1 ++ b) with ((ac :: a) ++ g1 ++ b).
      change (ac :: a ++ g2 ++ b) with ((ac :: a) ++ g2 ++ b).
      destruct (D (ac :: a)) as [(-> & ->)|(a' & _ & -> & ->)];
        [reflexivity|apply IH].
  - destruct a as [|ac a].
    + destruct g1 as [|x1 g1]; [congruence|].
      destruct g2 as [|x2 g2]; [congruence|].
      cbn [app]. cbn [forallb] in S1, S2.
      apply andb_prop in S1, S2. destruct S1 as [X1 S1], S2 as [X2 S2].
      rewrite !separator_eqb by assumption. reflexivity.
    + cbn [app]. destruct (pc =? ac)%char; [apply IH|reflexivity].
Qed.

Lemma matches_phrase_gap (g1 g2 b : list ascii) :
  g1 <> [] -> forallb separator g1 = true ->
  g2 <> [] -> forallb separator g2 = true ->
  forall a in_gap t,
    matches (a ++ g1 ++ b) in_gap t = matches (a ++ g2 ++ b) in_gap t.
Proof.
  intros N1 S1 N2 S2.
  assert (G : forall t, matches (g1 ++ b) true t = matches (g2 ++ b) true t).
  { intros t. rewrite !matches_gap, !drop_separators_app, S1, S2.
    reflexivity. }
  induction a as [|ac a IH]; intros in_gap t.
  - cbn [app]. destruct in_gap; [apply G|].
    destruct g1 as [|x1 g1]; [congruence|].
    destruct g2 as [|x2 g2]; [congruence|].
    cbn [app matches]. cbn [forallb] in S1, S2.
    apply andb_prop in S1, S2. destruct S1 as [X1 S1], S2 as [X2 S2].
    rewrite X1, X2. destruct t as [|tc t]; [reflexivity|].
    destruct (separator tc); [|reflexivity].
    rewrite !matches_gap, !drop_separators_app, S1, S2. reflexivity.
  - cbn [app matches]. destruct (separator ac).
    + destruct in_gap; [apply IH|].
      destruct t as [|tc t]; [reflexivity|].
      destruct (separator tc); [apply IH|reflexivity].
    + destruct t as [|tc t]; [reflexivity|].
      destruct (ac =? tc)%char; [apply IH|reflexivity].
Qed.

(** ** isSeparator and matchPhrase *)

(** X11.  isSeparator looks at the low byte of its argument only: it is 1 on
    space, tab, line feed and carriage return and 0 on every other
    character, whether plain [char] is signed or not. *)
Theorem isSeparator_low_byte :
  (forall c k, isSeparator (c + 256 * k) = isSeparator c)
  /\ (forall char_signed c,
         isSeparator (int_of_char char_signed c)
         = if separator c then 1 else 0).
Proof.
  split; [|exact isSeparator_char].
  intros c k. unfold isSeparator.
  replace (c + 256 * k) with (c + k * 256) by lia.
  rewrite Z_mod_plus_full. reflexivity.
Qed.

(** X12.  matchPhrase on two buffers that hold strings completes and returns
    TRUE or FALSE: neither pointer is read behind its NUL. *)
Theorem matchPhrase_total (char_signed : bool)
    (text phrase ts ps : list ascii) :
  terminated text ts -> terminated phrase ps ->
  matchPhrase char_signed text phrase = Done TRUE
  \/ matchPhrase char_signed text phrase = Done FALSE.
Proof.
  intros Ht Hp. rewrite (matchPhrase_matches _ _ _ _ _ Ht Hp).
  destruct (matches ps false ts); auto.
Qed.

Lemma matchPhrase_total_witness :
  matchPhrase true (lit "a  b") (lit "a b") = Done TRUE
  \/ matchPhrase true (lit "a  b") (lit "a b") = Done FALSE.
Proof.
  apply (matchPhrase_total true _ _ (chars "a  b") (chars "a b"));
    (split; [exists []; reflexivity|reflexivity]).
Defined.

(** X13.  A text that starts with the phrase, character for character,
    matches it, whatever follows; the empty phrase matches every
    text. *)
Theorem matchPhrase_literal_prefix (char_signed : bool)
    (text phrase ps more : list ascii) :
  terminated phrase ps -> terminated text (ps ++ more) ->
  matchPhrase char_signed text phrase = Done TRUE.
Proof.
  intros Hp Ht. rewrite (matchPhrase_matches _ _ _ _ _ Ht Hp).
  rewrite (matches_prefix (length ps)); auto.
Qed.

Lemma matchPhrase_literal_prefix_witness :
  matchPhrase false (lit "ab cd") (lit "ab c") = Done TRUE.
Proof.
  apply (matchPhrase_literal_prefix false _ _ (chars "ab c") (chars "d"));
    (split; [exists []; reflexivity|reflexivity]).
Defined.

(** X14.  The match does not look behind the phrase: a text that matches
    still matches when more text is put after it. *)
Theorem matchPhrase_longer_text (char_signed : bool)
    (text text' phrase ts ps more : list ascii) :
  terminated text ts -> terminated text' (ts ++ more) ->
  terminated phrase ps ->
  matchPhrase char_signed text phrase = Done TRUE ->
  matchPhrase char_signed text' phrase = Done TRUE.
Proof.
  intros Ht Ht' Hp.
  rewrite (matchPhrase_matches _ _ _ _ _ Ht Hp),
          (matchPhrase_matches _ _ _ _ _ Ht' Hp).
  rewrite !TRUE_not_FALSE. apply matches_extend.
Qed.

Lemma matchPhrase_longer_text_witness :
  matchPhrase true (lit "a   bcd") (lit "a b") = Done TRUE.
Proof.
  apply (matchPhrase_longer_text true (lit "a   b") _ _
           (chars "a   b") (chars "a b") (chars "cd"));
    try (split; [exists []; reflexivity|reflexivity]).
  reflexivity.
Defined.

(** X15.  Any run of separators is as good as any other, in the text: the
    result is the same when one non-empty run of separators in the
    text is replaced by another. *)
Theorem matchPhrase_text_separators (char_signed : bool)
    (text text' phrase ps a g g' b : list ascii) :
  terminated text (a ++ g ++ b) -> terminated text' (a ++ g' ++ b) ->
  terminated phrase ps ->
  g <> [] -> forallb separator g = true ->
  g' <> [] -> forallb separator g' = true ->
  matchPhrase char_signed text phrase = matchPhrase char_signed text' phrase.
Proof.
  intros Ht Ht' Hp N S N' S'.
  rewrite (matchPhrase_matches _ _ _ _ _ Ht Hp),
          (matchPhrase_matches _ _ _ _ _ Ht' Hp).
  rewrite (matches_text_gap g g' b N S N' S'). reflexivity.
Qed.

Lemma matchPhrase_text_separators_witness :
  matchPhrase true
    (chars "a" ++ ["009"; "010"; " "]%char ++ chars "b" ++ [NUL])
    (lit "a b")
  = matchPhrase true (lit "a b") (lit "a b").
Proof.
  apply (matchPhrase_text_separators true _ _ _ (chars "a b")
           (chars "a") ["009"; "010"; " "]%char (chars " ") (chars "b"));
    try (split; [exists []; reflexivity|reflexivity]);
    try discriminate; reflexivity.
Defined.

(** X16.  And in the phrase: replacing one non-empty run of separators in
    the phrase by another changes no result. *)
Theorem matchPhrase_phrase_separators (char_signed : bool)
    (text phrase phrase' ts a g g' b : list ascii) :
  terminated text ts ->
  terminated phrase (a ++ g ++ b) -> terminated phrase' (a ++ g' ++ b) ->
  g <> [] -> forallb separator g = true ->
  g' <> [] -> forallb separator g' = true ->
  matchPhrase char_signed text phrase = matchPhrase char_signed text phrase'.
Proof.
  intros Ht Hp Hp' N S N' S'.
  rewrite (matchPhrase_matches _ _ _ _ _ Ht Hp),
          (matchPhrase_matches _ _ _ _ _ Ht Hp').
  rewrite (matches_phrase_gap g g' b N S N' S'). reflexivity.
Qed.

Lemma matchPhrase_phrase_separators_witness :
  matchPhrase false (lit "a b") (lit "a   b")
  = matchPhrase false (lit "a b") (lit "a b").
Proof.
  apply (matchPhrase_phrase_separators false _ _ _ (chars "a b")
           (chars "a") (chars "   ") (chars " ") (chars "b"));
    try (split; [exists []; reflexivity|reflexivity]);
    try discriminate; reflexivity.
Defined.

Lemma filter_drop_separators (l : list ascii) :
  filter (fun c => negb (separator c)) (drop_separators l)
  = filter (fun c => negb (separator c)) l.
Proof.
  induction l as [|c l IH]; simpl; [reflexivity|].
  destruct (separator c) eqn:E; simpl; [exact IH|].
  rewrite E. reflexivity.
Qed.

Lemma matches_letters (p : list ascii) :
  forall in_gap t,
    matches p in_gap t = true ->
    exists r, filter (fun c => negb (separator c)) t
              = filter (fun c => negb (separator c)) p ++ r.
Proof.
  induction p as [|pc p IH]; simpl; intros in_gap t H; [eauto|].
  destruct (separator pc) eqn:Ep; simpl.
  - destruct in_gap; [eauto|].
    destruct t as [|tc t]; [discriminate|].
    destruct (separator tc) eqn:Et; [|discriminate].
    apply IH in H. rewrite filter_drop_separators in H. exact H.
  - destruct t as [|tc t]; [discriminate|].
    destruct (pc =? tc)%char eqn:E; [|discriminate].
    apply Ascii.eqb_eq in E. subst tc. simpl. rewrite Ep. simpl.
    destruct (IH _ _ H) as (r & ->). eauto.
Qed.

(** X17.  Separators apart, a match is letter for letter: when matchPhrase
    returns TRUE, the characters of the phrase that are not separators
    are, in their order, the first such characters of the text. *)
Theorem matchPhrase_letters_agree (char_signed : bool)
    (text phrase ts ps : list ascii) :
  terminated text ts -> terminated phrase ps ->
  matchPhrase char_signed text phrase = Done TRUE ->
  exists r,
    filter (fun c => negb (separator c)) ts
    = filter (fun c => negb (separator c)) ps ++ r.
Proof.
  intros Ht Hp. rewrite (matchPhrase_matches _ _ _ _ _ Ht Hp).
  rewrite TRUE_not_FALSE. apply matches_letters.
Qed.

Lemma matchPhrase_letters_agree_witness :
  exists r,
    filter (fun c => negb (separator c)) (chars "ab  cd e")
    = filter (fun c => negb (separator c)) (chars "ab c") ++ r.
Proof.
  apply (matchPhrase_letters_agree true (lit "ab  cd e") (lit "ab c"));
    try (split; [exists []; reflexivity|reflexivity]).
  reflexivity.
Defined.

(** ** main of the search *)

Lemma In_nul_terminated (l : list ascii) :
  In NUL l -> exists s, terminated l s.
Proof.
  induction l as [|c l IH]; [intros []|].
  destruct (c =? NUL)%char eqn:E.
  - intros _. apply Ascii.eqb_eq in E. subst c.
    exists []. split; [exists l; reflexivity|reflexivity].
  - intros [H|H]; [subst c; discriminate E|].
    destruct (IH H) as (s & (rest & ->) & Hn).
    exists (c :: s). split; [exists rest; reflexivity|].
    simpl. rewrite E. exact Hn.
Qed.

(** What follows the first NUL of a buffer does not count. *)
Lemma terminated_tail (l x : list ascii) :
  exists s, forall y, terminated (l ++ NUL :: y) s.
Proof.
  destruct (cut_at_nul l) as (s & rest & E & Hn & _).
  exists s. intros y. split; [|exact Hn]. exists (rest ++ y).
  change (NUL :: y) with ([NUL] ++ y).
  rewrite app_assoc, E, <- app_assoc. reflexivity.
Qed.

Lemma matchPhrase_buffers (char_signed : bool) (l x ps y : list ascii) :
  no_nul ps = true ->
  matchPhrase char_signed (l ++ NUL :: x) (ps ++ NUL :: y)
  = matchPhrase char_signed (l ++ [NUL]) (ps ++ [NUL]).
Proof.
  intros Hp. destruct (terminated_tail l x) as (s & Hs).
  rewrite (matchPhrase_matches _ _ _ s ps (Hs x));
    [|split; [eauto|assumption]].
  rewrite (matchPhrase_matches _ _ _ s ps (Hs []));
    [|split; [eauto|assumption]].
  reflexivity.
Qed.

Lemma store_In_nul (l : list ascii) :
  forall k, In NUL l -> In NUL (store l k NUL).
Proof.
  induction l as [|c l IH]; intros [|k] H; simpl in *; auto.
  destruct H as [H|H]; auto.
Qed.

Lemma cut_at_In_nul (c : ascii) (l : list ascii) :
  In NUL l -> In NUL (cut_at c l).
Proof.
  unfold cut_at. destruct (strchr l c); auto using store_In_nul.
Qed.

Lemma skipn_padded (l : list ascii) (k i : nat) :
  (i <= length l)%nat ->
  skipn i (l ++ repeat NUL (S k)) = skipn i l ++ NUL :: repeat NUL k.
Proof.
  intros H. rewrite skipn_app.
  replace (i - length l)%nat with O by lia. reflexivity.
Qed.

(** The search loop completes, and flags exactly the positions at
    which matchPhrase returns TRUE. *)
Lemma find_matches_flags (char_signed : bool) (l phrase ps : list ascii)
    (k : nat) :
  terminated phrase ps ->
  forall cnt from,
    (from + cnt <= length l)%nat ->
    exists flags,
      find_matches char_signed (l ++ repeat NUL (S k)) phrase from cnt
      = Done flags
      /\ length flags = cnt
      /\ forall j, (j < cnt)%nat ->
           (nth j flags false = true
            <-> matchPhrase char_signed (skipn (from + j) l ++ [NUL])
                  (ps ++ [NUL]) = Done TRUE).
Proof.
  intros Hp. pose proof Hp as ((y & ->) & Hn).
  induction cnt as [|cnt IH]; intros from Hl.
  - exists []. repeat split; auto. all: lia.
  - cbn [find_matches]. rewrite skipn_padded by lia.
    rewrite matchPhrase_buffers by assumption.
    destruct (terminated_tail (skipn from l) []) as (s & Hs).
    assert (Hq : terminated (ps ++ [NUL]) ps)
      by (split; [exists []; reflexivity|assumption]).
    pose proof (matchPhrase_matches char_signed _ _ s ps (Hs []) Hq) as E.
    rewrite E. cbn [bind].
    destruct (IH (S from) ltac:(lia)) as (flags & -> & Hlen & Hfl).
    cbn [bind]. eexists. split; [reflexivity|].
    split; [simpl; lia|].
    intros [|j] Hj.
    + rewrite Nat.add_0_r, E. cbn [nth].
      destruct (matches ps false s); simpl; split; auto; discriminate.
    + cbn [nth]. rewrite (Hfl j ltac:(lia)).
      replace (S from + j)%nat with (from + S j)%nat by lia. tauto.
Qed.

Lemma write_marked_length (text : list ascii) :
  forall flags, length flags = length text ->
    (length text <= length (write_marked text flags) <= 2 * length text)%nat.
Proof.
  induction text as [|c text IH]; intros [|f flags] H; simpl in *; try lia.
  specialize (IH flags ltac:(lia)).
  destruct f; simpl; lia.
Qed.

Lemma write_marked_unmark (text : list ascii) :
  ~ In "@"%char text ->
  forall flags, length flags = length text ->
    filter (fun c => negb (c =? "@")%char) (write_marked text flags) = text.
Proof.
  induction text as [|c text IH]; intros Hin [|f flags] H; simpl in *;
    try discriminate; [reflexivity|].
  assert (Hc : (c =? "@")%char = false).
  { apply Ascii.eqb_neq. intros ->. apply Hin. left. reflexivity. }
  rewrite filter_app. simpl. rewrite Hc. simpl.
  rewrite IH; auto.
  destruct f; reflexivity.
Qed.

Lemma write_unmarked (text : list ascii) :
  write_marked text (repeat false (length text)) = text.
Proof. induction text as [|c text IH]; simpl; [|rewrite IH]; reflexivity. Qed.

Lemma room_of_phrase : Z.to_nat (MAX_PHRASE_LEN - 1) = 104%nat.
Proof. reflexivity. Qed.

Lemma room_of_text : Z.to_nat (MAX_TEXT_LEN - 1) = 2004%nat.
Proof. reflexivity. Qed.

Lemma size_of_text (n : nat) :
  (n <= 2004)%nat -> (Z.to_nat MAX_TEXT_LEN - n = S (2004 - n))%nat.
Proof. intros H. change (Z.to_nat MAX_TEXT_LEN) with 2005%nat. lia. Qed.

(** X18.  Once input.txt is open and output.txt can be written, main ends
    with status 0 whatever the file holds: no buffer is overrun.  The
    output is the text (the at most 2004 bytes behind what fgets took
    as the first line) with some '@' put in; taking them out again
    gives the text back when the text has no '@' of its own. *)
Theorem main_marks_text (char_signed : bool)
    (fin line fin' : list ascii) :
  fgets MAX_PHRASE_LEN fin = Some (line, fin') ->
  let text := firstn 2004 fin' in
  exists out,
    main char_signed (Some fin) true = Done (0, Some out)
    /\ (length text <= length out <= 2 * length text)%nat
    /\ (~ In "@"%char text ->
        filter (fun c => negb (c =? "@")%char) out = text).
Proof.
  intros Hg text. unfold main. rewrite Hg. rewrite room_of_text.
  fold text. cbv zeta.
  assert (Hlen : (length text <= 2004)%nat) by apply firstn_le_length.
  rewrite size_of_text by assumption.
  set (phrase := cut_at "013"%char (cut_at newline _)).
  assert (Hp : exists ps, terminated phrase ps).
  { apply In_nul_terminated. unfold phrase.
    apply cut_at_In_nul, cut_at_In_nul, in_or_app. left.
    unfold fgets in Hg. destruct fin; [discriminate|].
    injection Hg as <- _. apply in_or_app. right. left. reflexivity. }
  destruct Hp as (ps & Hp).
  assert (F : exists flags,
             (if (nth 0 phrase NUL =? NUL)%char
              then Done (repeat false (length text))
              else find_matches char_signed
                     (text ++ repeat NUL (S (2004 - length text)))
                     phrase 0 (length text)) = Done flags
             /\ length flags = length text).
  { destruct (nth 0 phrase NUL =? NUL)%char.
    - eexists. split; [reflexivity|apply repeat_length].
    - destruct (find_matches_flags char_signed text phrase ps
                  (2004 - length text) Hp (length text) 0 ltac:(lia))
        as (flags & E & Hl & _). eauto. }
  destruct F as (flags & -> & Hl). cbn [bind].
  eexists. split; [reflexivity|]. split.
  - apply write_marked_length, Hl.
  - intros Hin. apply write_marked_unmark; assumption.
Qed.

Lemma main_marks_text_witness :
  exists out,
    main true (Some (chars "a b" ++ newline :: chars "xa  b")) true
    = Done (0, Some out)
    /\ (5 <= length out <= 10)%nat
    /\ (~ In "@"%char (chars "xa  b") ->
        filter (fun c => negb (c =? "@")%char) out = chars "xa  b").
Proof.
  apply (main_marks_text true
           (chars "a b" ++ newline :: chars "xa  b")
           (chars "a b" ++ [newline; NUL]) (chars "xa  b")).
  reflexivity.
Defined.

Lemma strchr_first (c : ascii) (a b : list ascii) :
  no_nul a = true -> ~ In c a ->
  strchr (a ++ c :: b) c = Some (length a).
Proof.
  induction a as [|x a IH]; simpl; intros Hn Hin.
  - rewrite Ascii.eqb_refl. reflexivity.
  - apply andb_prop in Hn. destruct Hn as [Hx Hn].
    apply negb_true_iff in Hx. rewrite Hx.
    destruct (x =? c)%char eqn:E.
    + apply Ascii.eqb_eq in E. subst x. exfalso. apply Hin. left. reflexivity.
    + rewrite IH; auto.
Qed.

Lemma cut_at_absent (c : ascii) (s rest : list ascii) :
  no_nul s = true -> c <> NUL -> ~ In c s ->
  cut_at c (s ++ NUL :: rest) = s ++ NUL :: rest.
Proof.
  intros Hn Hc Hin. unfold cut_at.
  pose proof (strchr_buffer c s rest Hn Hc) as H.
  destruct (strchr (s ++ NUL :: rest) c) as [k|]; [|reflexivity].
  destruct H as (a & b & -> & _). exfalso. apply Hin.
  apply in_or_app. right. left. reflexivity.
Qed.

(** X19.  main on a phrase line and a text: the phrase is the first line
    without its newline, and the output is the text with an '@' in
    front of exactly the positions at which matchPhrase, given the
    text from there on, returns TRUE. *)
Theorem main_marks_matches (char_signed : bool) (ps text : list ascii) :
  ps <> [] -> no_nul ps = true ->
  ~ In newline ps -> ~ In "013"%char ps ->
  (length ps <= 103)%nat -> (length text <= 2004)%nat ->
  exists flags,
    main char_signed (Some (ps ++ newline :: text)) true
    = Done (0, Some (write_marked text flags))
    /\ length flags = length text
    /\ forall i, (i < length text)%nat ->
         (nth i flags false = true
          <-> matchPhrase char_signed (skipn i text ++ [NUL]) (ps ++ [NUL])
              = Done TRUE).
Proof.
  intros Hne Hn Hnl Hcr Hlp Hlt.
  assert (A1 : fgets MAX_PHRASE_LEN (ps ++ newline :: text)
               = Some ((ps ++ [newline]) ++ [NUL], text)).
  { unfold fgets. rewrite room_of_phrase.
    destruct (ps ++ newline :: text) as [|c l] eqn:E;
      [destruct ps; discriminate|].
    rewrite <- E. rewrite fgets_chars_line by (auto; lia).
    f_equal. f_equal.
    rewrite length_app. simpl length.
    replace (ps ++ newline :: text) with ((ps ++ [newline]) ++ text)
      by (rewrite <- app_assoc; reflexivity).
    replace (length ps + 1)%nat with (length (ps ++ [newline]))
      by (rewrite length_app; reflexivity).
    rewrite skipn_app, skipn_all, Nat.sub_diag. reflexivity. }
  unfold main. rewrite A1, room_of_text. cbv zeta.
  rewrite (firstn_all2 text) by lia.
  rewrite size_of_text by lia.
  set (pad := repeat NUL _).
  assert (A2 : cut_at "013"%char
                 (cut_at newline (((ps ++ [newline]) ++ [NUL]) ++ pad))
               = ps ++ NUL :: NUL :: pad).
  { rewrite <- !app_assoc. simpl app.
    unfold cut_at at 2. rewrite strchr_first by assumption.
    rewrite store_app. apply cut_at_absent; auto. discriminate. }
  rewrite A2.
  assert (A3 : (nth 0 (ps ++ NUL :: NUL :: pad) NUL =? NUL)%char = false).
  { destruct ps as [|c ps]; [congruence|]. simpl in *.
    apply andb_prop in Hn. destruct Hn as [Hc _].
    apply negb_true_iff in Hc. exact Hc. }
  rewrite A3.
  destruct (find_matches_flags char_signed text (ps ++ NUL :: NUL :: pad) ps
              (2004 - length text)
              ltac:(split; [eauto|assumption]) (length text) 0 ltac:(lia))
    as (flags & -> & Hl & Hfl).
  cbn [bind]. exists flags. repeat split; auto; apply Hfl; assumption.
Qed.

Lemma main_marks_matches_witness :
  exists flags,
    main false (Some (chars "a b" ++ newline :: chars "xa  b a")) true
    = Done (0, Some (write_marked (chars "xa  b a") flags))
    /\ length flags = 7%nat
    /\ forall i, (i < 7)%nat ->
         (nth i flags false = true
          <-> matchPhrase false (skipn i (chars "xa  b a") ++ [NUL])
                (chars "a b" ++ [NUL]) = Done TRUE).
Proof.
  apply (main_marks_matches false (chars "a b") (chars "xa  b a")).
  - discriminate.
  - reflexivity.
  - simpl. intuition discriminate.
  - simpl. intuition discriminate.
  - simpl. lia.
  - simpl. lia.
Defined.

(** X20.  An empty first line is an empty phrase, and an empty phrase marks
    nothing: the text is copied as it is, cut after 2004 bytes. *)
Theorem main_empty_phrase (char_signed : bool) (rest : list ascii) :
  main char_signed (Some (newline :: rest)) true
  = Done (0, Some (firstn 2004 rest))
  /\ main char_signed (Some ("013"%char :: newline :: rest)) true
     = Done (0, Some (firstn 2004 rest)).
Proof.
  split; unfold main, fgets; rewrite room_of_phrase, room_of_text;
    cbn [fgets_chars Ascii.eqb Bool.eqb newline length skipn app];
    cbv zeta;
    match goal with
    | |- context [cut_at "013"%char ?b] =>
        change (nth 0 (cut_at "013"%char b) NUL) with NUL
    end;
    rewrite Ascii.eqb_refl; cbn [bind];
    rewrite write_unmarked; reflexivity.
Qed.
Lemma find_matches_tail (char_signed : bool) (l ps tail : list ascii)
    (k : nat) :
  no_nul ps = true ->
  forall cnt from,
    (from + cnt <= length l)%nat ->
    find_matches char_signed (l ++ repeat NUL (S k)) (ps ++ NUL :: tail)
      from cnt
    = find_matches char_signed (l ++ repeat NUL (S k)) (ps ++ [NUL])
        from cnt.
Proof.
  intros Hn. induction cnt as [|cnt IH]; intros from Hl; [reflexivity|].
  cbn [find_matches]. rewrite skipn_padded by lia.
  rewrite (matchPhrase_buffers _ _ _ ps tail Hn).
  rewrite (matchPhrase_buffers _ _ (repeat NUL k) ps [] Hn).
  rewrite IH by lia. reflexivity.
Qed.

(** What main does once the phrase buffer is known. *)
Lemma main_with_phrase (char_signed : bool)
    (fin line text ps tail : list ascii) :
  fgets MAX_PHRASE_LEN fin = Some (line, text) ->
  (length text <= 2004)%nat ->
  cut_at "013"%char
    (cut_at newline
       (line ++ repeat NUL (Z.to_nat MAX_PHRASE_LEN - length line)))
  = ps ++ NUL :: tail ->
  ps <> [] -> no_nul ps = true ->
  main char_signed (Some fin) true
  = flags <- find_matches char_signed
               (text ++ repeat NUL (S (2004 - length text)))
               (ps ++ [NUL]) 0 (length text) ;;
    Done (0, Some (write_marked text flags)).
Proof.
  intros Hg Hl Hcut Hne Hn. unfold main. rewrite Hg, room_of_text.
  cbv zeta. rewrite (firstn_all2 text) by lia.
  rewrite size_of_text by lia. rewrite Hcut.
  assert (A : (nth 0 (ps ++ NUL :: tail) NUL =? NUL)%char = false).
  { destruct ps as [|c ps]; [congruence|]. simpl in *.
    apply andb_prop in Hn. destruct Hn as [Hc _].
    apply negb_true_iff in Hc. exact Hc. }
  rewrite A, find_matches_tail by (auto; lia).
  destruct (find_matches _ _ _ _ _); reflexivity.
Qed.

Lemma fgets_line (room : nat) (ln rest : list ascii) :
  ~ In newline ln -> (length ln < room)%nat ->
  fgets (Z.of_nat (S room)) (ln ++ newline :: rest)
  = Some ((ln ++ [newline]) ++ [NUL], rest).
Proof.
  intros Hin Hl. unfold fgets.
  replace (Z.to_nat (Z.of_nat (S room) - 1)) with room by lia.
  destruct (ln ++ newline :: rest) as [|c l] eqn:E;
    [destruct ln; discriminate|].
  rewrite <- E. rewrite fgets_chars_line by assumption.
  f_equal. f_equal.
  replace (ln ++ newline :: rest) with ((ln ++ [newline]) ++ rest)
    by (rewrite <- app_assoc; reflexivity).
  rewrite skipn_app, skipn_all, Nat.sub_diag. reflexivity.
Qed.

Lemma fgets_chars_full (room : nat) :
  forall ln rest,
    ~ In newline ln -> length ln = room ->
    fgets_chars room (ln ++ rest) = ln.
Proof.
  induction room as [|room IH]; intros [|c ln] rest Hin Hl;
    simpl in *; try discriminate.
  - destruct rest; reflexivity.
  - destruct (c =? newline)%char eqn:E.
    + apply Ascii.eqb_eq in E. subst c. exfalso. apply Hin. left. reflexivity.
    + f_equal. apply IH; [|lia]. intros H. apply Hin. right. exact H.
Qed.

(** X26.  A phrase line that ends in carriage return and line feed gives
    the same output as the same line ending in a line feed alone. *)
Theorem main_crlf (char_signed : bool) (ps text : list ascii) :
  ps <> [] -> no_nul ps = true ->
  ~ In newline ps -> ~ In "013"%char ps ->
  (length ps <= 102)%nat -> (length text <= 2004)%nat ->
  main char_signed (Some (ps ++ "013"%char :: newline :: text)) true
  = main char_signed (Some (ps ++ newline :: text)) true.
Proof.
  intros Hne Hn Hnl Hcr Hlp Hlt.
  set (pad1 := repeat NUL (Z.to_nat MAX_PHRASE_LEN
                           - length ((ps ++ [newline]) ++ [NUL]))).
  set (pad2 := repeat NUL
                 (Z.to_nat MAX_PHRASE_LEN
                  - length (((ps ++ ["013"%char]) ++ [newline]) ++ [NUL]))).
  assert (Hcr' : ~ In newline (ps ++ ["013"%char])).
  { intros H. apply in_app_or in H. destruct H as [H|[H|[]]]; auto.
    discriminate H. }
  assert (F1 : fgets MAX_PHRASE_LEN (ps ++ "013"%char :: newline :: text)
               = Some ((((ps ++ ["013"%char]) ++ [newline]) ++ [NUL]), text)).
  { replace (ps ++ "013"%char :: newline :: text)
      with ((ps ++ ["013"%char]) ++ newline :: text)
      by (rewrite <- app_assoc; reflexivity).
    apply (fgets_line 104); [assumption|].
    rewrite length_app. simpl. lia. }
  assert (C1 : cut_at "013"%char
                 (cut_at newline
                    ((((ps ++ ["013"%char]) ++ [newline]) ++ [NUL]) ++ pad2))
               = ps ++ NUL :: NUL :: NUL :: pad2).
  { rewrite <- !app_assoc. simpl app. unfold cut_at at 2.
    replace (ps ++ "013"%char :: newline :: NUL :: pad2)
      with ((ps ++ ["013"%char]) ++ newline :: NUL :: pad2)
      by (rewrite <- app_assoc; reflexivity).
    rewrite strchr_first, store_app;
      [|rewrite no_nul_app, Hn; reflexivity|assumption].
    rewrite <- app_assoc. simpl app. unfold cut_at.
    rewrite strchr_first, store_app by assumption. reflexivity. }
  assert (F2 : fgets MAX_PHRASE_LEN (ps ++ newline :: text)
               = Some ((ps ++ [newline]) ++ [NUL], text))
    by (apply (fgets_line 104); [assumption|lia]).
  assert (C2 : cut_at "013"%char
                 (cut_at newline (((ps ++ [newline]) ++ [NUL]) ++ pad1))
               = ps ++ NUL :: NUL :: pad1).
  { rewrite <- !app_assoc. simpl app.
    unfold cut_at at 2. rewrite strchr_first by assumption.
    rewrite store_app. apply cut_at_absent; auto. discriminate. }
  rewrite (main_with_phrase char_signed _ _ text ps _ F1 Hlt C1 Hne Hn).
  rewrite (main_with_phrase char_signed _ _ text ps _ F2 Hlt C2 Hne Hn).
  reflexivity.
Qed.

Lemma main_crlf_witness :
  main true (Some (chars "a b" ++ "013"%char :: newline :: chars "xa  b")) true
  = main true (Some (chars "a b" ++ newline :: chars "xa  b")) true.
Proof.
  apply (main_crlf true (chars "a b") (chars "xa  b")).
  - discriminate.
  - reflexivity.
  - simpl. intuition discriminate.
  - simpl. intuition discriminate.
  - simpl. lia.
  - simpl. lia.
Defined.

(** X27.  The phrase is at most 104 characters long: when the first
    line has no newline among its first 104 characters, these are the
    phrase and the text begins right behind them, in the middle of
    the line. *)
Theorem main_long_first_line (char_signed : bool) (ps text : list ascii) :
  no_nul ps = true -> ~ In newline ps -> ~ In "013"%char ps ->
  length ps = 104%nat -> (length text <= 2004)%nat ->
  exists flags,
    main char_signed (Some (ps ++ text)) true
    = Done (0, Some (write_marked text flags))
    /\ length flags = length text
    /\ forall i, (i < length text)%nat ->
         (nth i flags false = true
          <-> matchPhrase char_signed (skipn i text ++ [NUL]) (ps ++ [NUL])
              = Done TRUE).
Proof.
  intros Hn Hnl Hcr Hlp Hlt.
  assert (Hne : ps <> []) by (intros ->; discriminate).
  rewrite (main_with_phrase char_signed _ (ps ++ [NUL]) text ps []); auto.
  - destruct (find_matches_flags char_signed text (ps ++ [NUL]) ps
                (2004 - length text)
                ltac:(split; [exists []; reflexivity|assumption])
                (length text) 0 ltac:(lia))
      as (flags & -> & Hl & Hfl).
    cbn [bind]. exists flags. repeat split; auto; apply Hfl; assumption.
  - unfold fgets. rewrite room_of_phrase.
    destruct (ps ++ text) as [|c l] eqn:E; [destruct ps; discriminate|].
    rewrite <- E. rewrite fgets_chars_full by assumption.
    rewrite skipn_app, skipn_all, Nat.sub_diag. reflexivity.
  - rewrite length_app, Hlp. simpl repeat. rewrite app_nil_r.
    rewrite (cut_at_absent newline ps []); auto; [|discriminate].
    apply cut_at_absent; auto. discriminate.
Qed.

Lemma main_long_first_line_witness :
  exists flags,
    main true (Some (repeat "a"%char 104 ++ chars "aab")) true
    = Done (0, Some (write_marked (chars "aab") flags))
    /\ length flags = 3%nat
    /\ forall i, (i < 3)%nat ->
         (nth i flags false = true
          <-> matchPhrase true (skipn i (chars "aab") ++ [NUL])
                (repeat "a"%char 104 ++ [NUL]) = Done TRUE).
Proof.
  apply (main_long_first_line true (repeat "a"%char 104) (chars "aab")).
  - reflexivity.
  - intros H. apply repeat_spec in H. discriminate H.
  - intros H. apply repeat_spec in H. discriminate H.
  - apply repeat_length.
  - simpl. lia.
Defined.


End SearchFacts.

(** * The gate log *)

Module JournalFacts.
Import Journal.

(** ** compareEvents *)

Lemma compareEvents_value (a b : Event) :
  valid_event a -> valid_event b ->
  compareEvents a b
  = if time_in_minutes a =? time_in_minutes b then type b - type a
    else time_in_minutes a - time_in_minutes b.
Proof.
  intros ([Ha|Ha] & Ta) ([Hb|Hb] & Tb); unfold compareEvents;
    rewrite Ha, Hb; unfold EVENT_ENTER, EVENT_LEAVE;
    (rewrite (wrap_id (time_in_minutes a - time_in_minutes b))
      by (unfold INT_MIN, INT_MAX in *; lia));
    destruct (Z.eqb_spec (time_in_minutes a) (time_in_minutes b)) as [E|E];
    destruct (Z.eqb_spec (time_in_minutes a - time_in_minutes b) 0);
    try lia; reflexivity.
Qed.

(** X21.  compareEvents orders events by time and, at equal times, entries
    before leaves, provided the times are not negative (so that the
    subtraction cannot overflow): it is negative exactly on pairs in
    that order, zero exactly on equal events, and antisymmetric. *)
Theorem compareEvents_orders (a b : Event) :
  valid_event a -> valid_event b ->
  (compareEvents a b < 0
   <-> time_in_minutes a < time_in_minutes b
       \/ (time_in_minutes a = time_in_minutes b
           /\ type a = EVENT_ENTER /\ type b = EVENT_LEAVE))
  /\ (compareEvents a b = 0 <-> a = b)
  /\ compareEvents b a = - compareEvents a b.
Proof.
  intros Ha Hb.
  rewrite (compareEvents_value a b Ha Hb), (compareEvents_value b a Hb Ha).
  destruct a as [ta ya], b as [tb yb].
  destruct Ha as ([Ha|Ha] & Ta), Hb as ([Hb|Hb] & Tb); simpl in *;
    subst ya yb; unfold EVENT_ENTER, EVENT_LEAVE;
    destruct (Z.eqb_spec ta tb) as [E|E];
    destruct (Z.eqb_spec tb ta) as [E'|E']; try lia;
    (split; [|split]); try lia;
    try (split; [intros; lia|intros [= ? ?]; lia]);
    try (split; [intros; lia|intros [= ?]; lia]);
    try (split; [intros; subst; reflexivity|intros; lia]);
    try (split; [intros; subst; f_equal; lia|intros; lia]).
Qed.

Lemma compareEvents_orders_witness :
  compareEvents {| time_in_minutes := 660; type := EVENT_ENTER |}
                {| time_in_minutes := 660; type := EVENT_LEAVE |} < 0.
Proof.
  apply (proj1 (compareEvents_orders
                  {| time_in_minutes := 660; type := EVENT_ENTER |}
                  {| time_in_minutes := 660; type := EVENT_LEAVE |}
                  ltac:(split; [left; reflexivity|simpl; unfold INT_MAX; lia])
                  ltac:(split; [right; reflexivity|simpl; unfold INT_MAX; lia]))).
  right. repeat split.
Defined.


(** ** The sweep *)

Lemma firstn_snoc_event (events : list Event) (k : nat) :
  (k < length events)%nat ->
  firstn (S k) events = firstn k events ++ [nth k events nobody].
Proof.
  revert k. induction events as [|e events IH]; intros [|k] H;
    simpl in *; try lia.
  - reflexivity.
  - f_equal. apply IH. lia.
Qed.

Lemma occupancy_S (events : list Event) (k : nat) :
  (k < length events)%nat ->
  occupancy events (S k)
  = occupancy events k + type (nth k events nobody).
Proof.
  intros H. unfold occupancy. rewrite firstn_snoc_event by assumption.
  generalize (firstn k events). intros l.
  induction l as [|x l IH]; simpl; [lia|]. rewrite IH. lia.
Qed.

Lemma sweep_S (events : list Event) (k : nat) :
  (k < length events)%nat ->
  sweep (firstn (S k) events)
  = sweep_step (sweep (firstn k events)) (nth k events nobody).
Proof.
  intros H. unfold sweep. rewrite firstn_snoc_event by assumption.
  rewrite fold_left_app. reflexivity.
Qed.

Lemma valid_nth (events : list Event) (k : nat) :
  Forall valid_event events -> (k < length events)%nat ->
  valid_event (nth k events nobody).
Proof.
  intros H Hk. rewrite Forall_forall in H. apply H, nth_In, Hk.
Qed.

Lemma occupancy_range (events : list Event) :
  Forall valid_event events ->
  forall k, (k <= length events)%nat ->
    - Z.of_nat k <= occupancy events k <= Z.of_nat k.
Proof.
  intros H. induction k as [|k IH]; intros Hk.
  - unfold occupancy. simpl. lia.
  - rewrite occupancy_S by lia.
    destruct (valid_nth events k H ltac:(lia)) as ([E|E] & _);
      rewrite E; unfold EVENT_ENTER, EVENT_LEAVE; lia.
Qed.

Section Sweep.

Variable events : list Event.
Hypothesis wf : well_formed events.

Lemma people_step (k : nat) :
  (k < length events)%nat ->
  wrap (occupancy events k + type (nth k events nobody))
  = occupancy events (S k).
Proof.
  intros Hk. destruct wf as (Hv & Hl).
  pose proof (occupancy_range events Hv (S k) ltac:(lia)) as R.
  rewrite occupancy_S in * by assumption.
  apply wrap_id. unfold MAX_EVENTS, MAX_RECORDS in Hl.
  unfold INT_MIN, INT_MAX. lia.
Qed.

Lemma counted_step (k : nat) (s : Sweep) :
  (k < length events)%nat ->
  counted events k s ->
  counted events (S k) (sweep_step s (nth k events nobody)).
Proof.
  intros Hk [Cp Cb Cr]. unfold sweep_step.
  rewrite Cp, people_step by assumption.
  rewrite Z.gtb_ltb.
  destruct (Z.ltb_spec (max_people s) (occupancy events (S k))) as [G|G].
  - constructor; simpl.
    + reflexivity.
    + intros x Hx. destruct (Nat.eq_dec x (S k)) as [->|N]; [lia|].
      specialize (Cb x ltac:(lia)). lia.
    + exists (S k). split; [lia|reflexivity].
  - repeat match goal with
           | |- context [if ?b then _ else _] => destruct b
           end;
      (constructor; simpl;
       [reflexivity
       |intros x Hx; destruct (Nat.eq_dec x (S k)) as [->|N];
        [lia|apply Cb; lia]
       |destruct Cr as (x & Hx & E); exists x; split; [lia|exact E]]).
Qed.

Lemma sweep_counted (k : nat) :
  (k <= length events)%nat -> counted events k (sweep (firstn k events)).
Proof.
  induction k as [|k IH]; intros Hk.
  - constructor; simpl.
    + reflexivity.
    + intros x Hx. assert (x = 0%nat) as -> by lia. unfold occupancy.
      simpl. lia.
    + exists 0%nat. split; [lia|reflexivity].
  - rewrite sweep_S by lia. apply counted_step; [lia|]. apply IH. lia.
Qed.

End Sweep.

(** X22.  After the sweep [max_people] is the largest number of people that
    were inside at any moment (after any number of events), and 0 if
    that number never rose above 0; [current_people] is the number
    left inside at the end. *)
Theorem sweep_max_people (events : list Event) :
  well_formed events ->
  current_people (sweep events) = occupancy events (length events)
  /\ (forall k, (k <= length events)%nat ->
                occupancy events k <= max_people (sweep events))
  /\ exists k, (k <= length events)%nat
               /\ occupancy events k = max_people (sweep events).
Proof.
  intros H. pose proof (sweep_counted events H (length events) (le_n _)) as C.
  rewrite firstn_all in C. destruct C as [Cp Cb Cr]. auto.
Qed.

Lemma busy_hour_well_formed : well_formed busy_hour.
Proof.
  split.
  - repeat constructor; simpl; unfold INT_MAX; lia.
  - simpl. unfold MAX_EVENTS, MAX_RECORDS. lia.
Defined.

Lemma sweep_max_people_witness :
  occupancy busy_hour 2 <= max_people (sweep busy_hour).
Proof.
  apply (proj1 (proj2 (sweep_max_people busy_hour busy_hour_well_formed))).
  simpl. lia.
Defined.

Lemma sorted_times (events : list Event) :
  well_formed events -> sorted events ->
  forall i j, (i < j < length events)%nat ->
    time_at events i <= time_at events j.
Proof.
  intros (Hv & _) Hs i j Hij. specialize (Hs i j Hij).
  rewrite compareEvents_value in Hs by (apply valid_nth; auto; lia).
  unfold time_at.
  destruct (Z.eqb_spec (time_in_minutes (nth i events nobody))
              (time_in_minutes (nth j events nobody))); lia.
Qed.

Section Tracking.

Variable events : list Event.
Hypothesis wf : well_formed events.
Hypothesis in_order : sorted events.
Hypothesis nobody_missing :
  forall k, (k <= length events)%nat -> 0 <= occupancy events k.

Lemma gap_not_negative (j : nat) :
  (S j < length events)%nat -> 0 <= gap events j.
Proof.
  intros H. unfold gap.
  pose proof (sorted_times events wf in_order j (S j) ltac:(lia)). lia.
Qed.

Lemma tracked_step (k : nat) (s : Sweep) :
  (k < length events)%nat ->
  counted events k s -> tracked events k s ->
  tracked events (S k) (sweep_step s (nth k events nobody)).
Proof.
  intros Hk [Cp Cb Cr] [Ts Tr Tl Tb].
  pose proof (people_step events wf k Hk) as Hp.
  pose proof (occupancy_S events k Hk) as HS.
  destruct wf as (Hv & Hlen).
  destruct (valid_nth events k Hv Hk) as (Hty & Htime).
  fold (time_at events k) in Htime.
  pose proof (Cb k (le_n _)) as Hmax.
  pose proof (nobody_missing (S k) ltac:(lia)) as Hnn.
  assert (Hlast : forall j, (S j < S k)%nat ->
                    (S j < k)%nat \/ (S j = k /\ (1 <= k)%nat
                                      /\ j = (k - 1)%nat)) by lia.
  unfold sweep_step. rewrite Cp, Hp.
  fold (time_at events k).
  rewrite Z.gtb_ltb.
  destruct (Z.ltb_spec (max_people s) (occupancy events (S k))) as [G|G].
  { (* a new maximum *)
    constructor; simpl.
    - intros _ _. f_equal. lia.
    - exact Htime.
    - intros j Hj E. specialize (Cb (S j) ltac:(lia)). lia.
    - left. split; [reflexivity|].
      intros j Hj E. specialize (Cb (S j) ltac:(lia)). lia. }
  destruct (Z.eqb_spec (occupancy events k) (max_people s)) as [E1|E1];
    destruct (Z.ltb_spec (occupancy events (S k)) (max_people s)) as [L1|L1];
    cbn [andb].
  - (* the peak has just ended *)
    assert (K1 : (1 <= k)%nat).
    { destruct k; [|lia]. exfalso.
      assert (occupancy events 0 = 0) by reflexivity. lia. }
    pose proof (Ts K1 E1) as Estart.
    assert (Egap : wrap (time_at events k
                         - current_max_period_start_time s)
                   = gap events (k - 1)).
    { unfold gap. replace (S (k - 1)) with k by lia. rewrite Estart.
      apply wrap_id.
      assert (0 <= time_at events (k - 1) <= INT_MAX) by (rewrite <- Estart; exact Tr).
      unfold INT_MIN, INT_MAX in *. lia. }
    rewrite Egap.
    pose proof (gap_not_negative (k - 1) ltac:(lia)) as Gpos.
    rewrite Z.gtb_ltb.
    destruct (Z.ltb_spec (max_period_duration s) (gap events (k - 1)))
      as [Better|Worse].
    + constructor; simpl.
      * intros _ E. lia.
      * exact Tr.
      * intros j Hj E.
        destruct (Hlast j Hj) as [Hlt|(_ & _ & ->)]; [|lia].
        specialize (Tl j Hlt E). lia.
      * right. exists (k - 1)%nat.
        replace (S (k - 1)) with k by lia.
        repeat split; auto; try lia.
        intros j' Hj' E. specialize (Tl j' ltac:(lia) E). lia.
    + constructor; simpl.
      * intros _ E. lia.
      * exact Tr.
      * intros j Hj E.
        destruct (Hlast j Hj) as [Hlt|(_ & _ & ->)]; [auto|lia].
      * destruct Tb as [(D & _)|(j & Hj & Rest)]; [lia|].
        right. exists j. split; [lia|exact Rest].
  - (* at the maximum, and not leaving it: impossible *)
    exfalso. destruct Hty as [T|T]; rewrite T in HS;
      unfold EVENT_ENTER, EVENT_LEAVE in HS; lia.
  - (* below the maximum before and after *)
    destruct (Z.ltb_spec (occupancy events k) (max_people s)) as [L2|L2];
      [|lia].
    destruct (Z.eqb_spec (occupancy events (S k)) (max_people s)) as [E2|E2];
      [lia|]. cbn [andb].
    constructor; simpl.
    + intros _ E. lia.
    + exact Tr.
    + intros j Hj E.
      destruct (Hlast j Hj) as [Hlt|(Ek & _ & _)]; [auto|].
      rewrite Ek in E. lia.
    + destruct Tb as [(D & Hno)|(j & Hj & Rest)].
      * left. split; [exact D|]. intros j Hj.
        destruct (Hlast j Hj) as [Hlt|(Ek & _ & _)]; [auto|].
        rewrite Ek. lia.
      * right. exists j. split; [lia|exact Rest].
  - (* back at the maximum *)
    destruct (Z.ltb_spec (occupancy events k) (max_people s)) as [L2|L2];
      [|lia].
    destruct (Z.eqb_spec (occupancy events (S k)) (max_people s)) as [E2|E2];
      [|lia]. cbn [andb].
    constructor; simpl.
    + intros _ _. f_equal. lia.
    + exact Htime.
    + intros j Hj E.
      destruct (Hlast j Hj) as [Hlt|(Ek & _ & _)]; [auto|].
      rewrite Ek in E. lia.
    + destruct Tb as [(D & Hno)|(j & Hj & Rest)].
      * left. split; [exact D|]. intros j Hj.
        destruct (Hlast j Hj) as [Hlt|(Ek & _ & _)]; [auto|].
        rewrite Ek. lia.
      * right. exists j. split; [lia|exact Rest].
Qed.

Lemma sweep_tracked (k : nat) :
  (k <= length events)%nat -> tracked events k (sweep (firstn k events)).
Proof.
  induction k as [|k IH]; intros Hk.
  - constructor; simpl.
    + lia.
    + unfold INT_MAX. lia.
    + intros j Hj. lia.
    + left. split; [reflexivity|]. intros j Hj. lia.
  - rewrite sweep_S by lia. apply tracked_step; [lia| |apply IH; lia].
    apply sweep_counted; [exact wf|lia].
Qed.

End Tracking.

Lemma sweep_longest_peak (events : list Event) :
  well_formed events -> sorted events ->
  (forall k, (k <= length events)%nat -> 0 <= occupancy events k) ->
  occupancy events (length events) = 0 ->
  events <> [] ->
  exists j,
    peak events (max_people (sweep events)) j
    /\ result_start_time (sweep events) = time_at events j
    /\ result_end_time (sweep events) = time_at events (S j)
    /\ (forall j', peak events (max_people (sweep events)) j' ->
                   gap events j' <= gap events j)
    /\ (forall j', (j' < j)%nat ->
                   peak events (max_people (sweep events)) j' ->
                   gap events j' < gap events j).
Proof.
  intros Hwf Hs Hnn Hend Hne.
  pose proof (sweep_counted events Hwf (length events) (le_n _)) as C.
  pose proof (sweep_tracked events Hwf Hs Hnn (length events) (le_n _)) as T.
  rewrite firstn_all in C, T.
  destruct C as [Cp Cb Cr]. destruct T as [_ _ Tl Tb].
  assert (Hlen : (1 <= length events)%nat)
    by (destruct events; [congruence|simpl; lia]).
  assert (Hone : 1 <= max_people (sweep events)).
  { pose proof (Cb 1%nat Hlen) as B. pose proof (Hnn 1%nat Hlen) as N.
    rewrite occupancy_S in B, N by lia.
    destruct Hwf as (Hv & _).
    destruct (valid_nth events 0 Hv ltac:(lia)) as ([E|E] & _);
      rewrite E in B, N; unfold EVENT_ENTER, EVENT_LEAVE in *;
      change (occupancy events 0) with 0 in *; lia. }
  destruct Tb as [(_ & Hno)|(j & Hj & Ej & Ed & Es & Ee & Hfirst)].
  - exfalso. destruct Cr as (x & Hx & Ex).
    destruct x as [|x]; [change (occupancy events 0) with 0 in Ex; lia|].
    apply (Hno x); [|exact Ex].
    destruct (Nat.eq_dec (S x) (length events)) as [E|E]; [|lia].
    rewrite E in Ex. lia.
  - exists j. split; [split; assumption|].
    split; [exact Es|]. split; [exact Ee|]. split.
    + intros j' (Hj' & Ej'). rewrite <- Ed. apply Tl; assumption.
    + intros j' Hlt (Hj' & Ej'). apply Hfirst; assumption.
Qed.

(** X23.  On a log in time order in which nobody leaves before entering and
    everybody has left at the end, the sweep reports a stretch between
    two consecutive events during which [max_people] people were
    inside: the longest such stretch, and the earliest of the longest. *)
Theorem sweep_finds_longest_peak (events : list Event) :
  well_formed events -> sorted events ->
  (forall k, (k <= length events)%nat -> 0 <= occupancy events k) ->
  occupancy events (length events) = 0 ->
  events <> [] ->
  exists j,
    peak events (max_people (sweep events)) j
    /\ result_start_time (sweep events) = time_at events j
    /\ result_end_time (sweep events) = time_at events (S j)
    /\ (forall j', peak events (max_people (sweep events)) j' ->
                   gap events j' <= gap events j)
    /\ (forall j', (j' < j)%nat ->
                   peak events (max_people (sweep events)) j' ->
                   gap events j' < gap events j).
Proof.
  intros Hwf Hs Hnn Hend Hne.
  destruct (sweep_longest_peak events Hwf Hs Hnn Hend Hne)
    as (j & Hpeak & Hstart & Hend' & Hlongest & Hearliest).
  exists j. repeat split; try assumption; apply Hpeak.
Qed.

Lemma busy_hour_sorted : sorted busy_hour.
Proof.
  intros i j Hij. simpl in Hij.
  assert (i = 0 \/ i = 1 \/ i = 2)%nat as [-> | [-> | ->]] by lia;
    assert (j = 1 \/ j = 2 \/ j = 3)%nat as [-> | [-> | ->]] by lia;
    try lia; vm_compute; discriminate.
Defined.

Lemma sweep_finds_longest_peak_witness :
  exists j,
    peak busy_hour (max_people (sweep busy_hour)) j
    /\ result_start_time (sweep busy_hour) = time_at busy_hour j
    /\ result_end_time (sweep busy_hour) = time_at busy_hour (S j)
    /\ (forall j', peak busy_hour (max_people (sweep busy_hour)) j' ->
                   gap busy_hour j' <= gap busy_hour j)
    /\ (forall j', (j' < j)%nat ->
                   peak busy_hour (max_people (sweep busy_hour)) j' ->
                   gap busy_hour j' < gap busy_hour j).
Proof.
  apply (sweep_finds_longest_peak busy_hour
           busy_hour_well_formed busy_hour_sorted).
  - intros k Hk. simpl in Hk.
    assert (k = 0 \/ k = 1 \/ k = 2 \/ k = 3 \/ k = 4)%nat
      as [-> | [-> | [-> | [-> | ->]]]] by lia;
      vm_compute; discriminate.
  - reflexivity.
  - discriminate.
Defined.

(** ** printTime *)

Lemma format_02d_two_digits (z : Z) :
  0 <= z < 100 -> format_02d z = two_digits z.
Proof.
  intros H. rewrite <- (Z2Nat.id z) by lia.
  assert (Hn : (Z.to_nat z < 100)%nat) by lia.
  generalize dependent (Z.to_nat z). clear z H. intros n Hn.
  do 100 (destruct n as [|n]; [reflexivity|]). lia.
Qed.

(** X24.  For a time below 100 hours printTime writes exactly five
    characters, HH:MM: the two digits of the hours, a colon, the two
    digits of the minutes within the hour. *)
Theorem printTime_HH_MM (minutes : Z) :
  0 <= minutes < 6000 ->
  printTime minutes
  = two_digits (minutes / 60) ++ ":"%char :: two_digits (minutes mod 60).
Proof.
  intros H. unfold printTime.
  rewrite Z.quot_div_nonneg, Z.rem_mod_nonneg by lia.
  rewrite !format_02d_two_digits; [reflexivity| |].
  - pose proof (Z.mod_pos_bound minutes 60 ltac:(lia)). lia.
  - split; [apply Z.div_pos; lia|apply Z.div_lt_upper_bound; lia].
Qed.

Lemma printTime_HH_MM_witness :
  printTime 605 = chars "10:05".
Proof.
  refine (eq_trans (printTime_HH_MM 605 _) _); [lia|reflexivity].
Defined.

(** ** From the records to the answer *)

Lemma tally_app (ty : Z) (keep : Event -> bool) (l1 l2 : list Event) :
  tally ty keep (l1 ++ l2) = tally ty keep l1 + tally ty keep l2.
Proof. unfold tally. rewrite filter_app, length_app. lia. Qed.

Lemma tally_cons (ty : Z) (keep : Event -> bool) (e : Event)
    (l : list Event) :
  tally ty keep (e :: l)
  = (if (type e =? ty) && keep e then 1 else 0) + tally ty keep l.
Proof.
  unfold tally. simpl. destruct ((type e =? ty) && keep e); simpl length; lia.
Qed.

Lemma tally_not_negative (ty : Z) (keep : Event -> bool) (l : list Event) :
  0 <= tally ty keep l.
Proof. unfold tally. lia. Qed.

Lemma tally_perm (ty : Z) (keep : Event -> bool) (l l' : list Event) :
  Permutation l l' -> tally ty keep l = tally ty keep l'.
Proof.
  induction 1 as [|x l l' _ IH|x y l|l l' l'' _ IH1 _ IH2].
  - reflexivity.
  - rewrite !tally_cons, IH. reflexivity.
  - rewrite !tally_cons. lia.
  - congruence.
Qed.

Lemma tally_ext (ty : Z) (keep keep' : Event -> bool) (l : list Event) :
  (forall e, In e l -> keep e = keep' e) ->
  tally ty keep l = tally ty keep' l.
Proof.
  induction l as [|e l IH]; intros H; [reflexivity|].
  rewrite !tally_cons, IH by (intros; apply H; simpl; auto).
  rewrite (H e) by (simpl; auto). reflexivity.
Qed.

Lemma tally_least (ty : Z) (keep : Event -> bool) (l : list Event) :
  tally ty keep l <= tally ty (fun _ => true) l.
Proof.
  induction l as [|e l IH]; [reflexivity|]. rewrite !tally_cons.
  destruct (type e =? ty), (keep e); cbn [andb]; lia.
Qed.

Lemma tally_none (ty : Z) (keep : Event -> bool) (l : list Event) :
  (forall e, In e l -> keep e = false) -> tally ty keep l = 0.
Proof.
  induction l as [|e l IH]; intros H; [reflexivity|].
  rewrite tally_cons, IH by (intros; apply H; simpl; auto).
  rewrite (H e) by (simpl; auto).
  rewrite andb_false_r. reflexivity.
Qed.

Lemma people_tally (l : list Event) :
  Forall valid_event l ->
  fold_right (fun e people => type e + people) 0 l
  = tally EVENT_ENTER (fun _ => true) l - tally EVENT_LEAVE (fun _ => true) l.
Proof.
  induction 1 as [|e l (Hty & _) _ IH]; [reflexivity|].
  simpl fold_right. rewrite !tally_cons, IH.
  destruct Hty as [-> | ->]; unfold EVENT_ENTER, EVENT_LEAVE;
    cbn [Z.eqb Pos.eqb andb]; lia.
Qed.

Lemma record_times (h m : Z) :
  0 <= h <= 23 -> 0 <= m <= 59 ->
  wrap (wrap (h * 60) + m) = h * 60 + m.
Proof.
  intros Hh Hm. rewrite (wrap_id (h * 60)) by (unfold INT_MIN, INT_MAX; lia).
  apply wrap_id. unfold INT_MIN, INT_MAX. lia.
Qed.

Lemma built_valid (records : list (Z * Z * Z * Z)) :
  Forall valid_record records ->
  Forall valid_event (flat_map events_of_record records).
Proof.
  induction 1 as [|[[[h1 m1] h2] m2] l (H1 & M1 & H2 & M2 & Le) _ IH];
    [constructor|].
  simpl. rewrite !record_times by assumption.
  constructor; [|constructor; [|exact IH]];
    (split; [unfold EVENT_ENTER, EVENT_LEAVE; simpl; auto|
             simpl; unfold INT_MAX; lia]).
Qed.

Lemma built_length (records : list (Z * Z * Z * Z)) :
  length (flat_map events_of_record records) = (2 * length records)%nat.
Proof.
  induction records as [|[[[h1 m1] h2] m2] l IH]; [reflexivity|].
  simpl in *. rewrite IH. lia.
Qed.

Lemma built_balanced (records : list (Z * Z * Z * Z)) :
  tally EVENT_ENTER (fun _ => true) (flat_map events_of_record records)
  = tally EVENT_LEAVE (fun _ => true) (flat_map events_of_record records).
Proof.
  induction records as [|[[[h1 m1] h2] m2] l IH]; [reflexivity|].
  simpl flat_map. cbn [app]. rewrite !tally_cons, IH. reflexivity.
Qed.

(** Whoever has left by [x] has entered before [x]. *)
Lemma built_paired (records : list (Z * Z * Z * Z)) (x : Event) :
  valid_event x -> Forall valid_record records ->
  tally EVENT_LEAVE (upto x) (flat_map events_of_record records)
  <= tally EVENT_ENTER (below x) (flat_map events_of_record records).
Proof.
  intros Hx.
  induction 1 as [|[[[h1 m1] h2] m2] l (H1 & M1 & H2 & M2 & Le) _ IH];
    [reflexivity|].
  simpl flat_map. cbn [app]. rewrite !tally_cons. cbn [type].
  rewrite !record_times by assumption.
  change (EVENT_ENTER =? EVENT_LEAVE) with false.
  change (EVENT_LEAVE =? EVENT_ENTER) with false.
  rewrite !Z.eqb_refl. cbn [andb].
  set (enter := {| time_in_minutes := h1 * 60 + m1; type := EVENT_ENTER |}).
  set (leave := {| time_in_minutes := h2 * 60 + m2; type := EVENT_LEAVE |}).
  assert (Ve : valid_event enter)
    by (split; [left; reflexivity|simpl; unfold INT_MAX; lia]).
  assert (Vl : valid_event leave)
    by (split; [right; reflexivity|simpl; unfold INT_MAX; lia]).
  assert (K : upto x leave = true -> below x enter = true).
  { unfold upto, below. rewrite !compareEvents_value by assumption.
    simpl. destruct Hx as ([Tx|Tx] & _); rewrite Tx;
      unfold EVENT_ENTER, EVENT_LEAVE;
      destruct (Z.eqb_spec (h2 * 60 + m2) (time_in_minutes x));
      destruct (Z.eqb_spec (h1 * 60 + m1) (time_in_minutes x));
      rewrite ?Z.leb_le, ?Z.ltb_lt; lia. }
  destruct (upto x leave); [rewrite K by reflexivity|destruct (below x enter)];
    lia.
Qed.

Section Records.

Variable records : list (Z * Z * Z * Z).
Hypothesis sensible : Forall valid_record records.

Variable events : list Event.
Hypothesis shuffled : Permutation (flat_map events_of_record records) events.
Hypothesis in_order : sorted events.

Lemma events_valid : Forall valid_event events.
Proof. exact (Permutation_Forall shuffled (built_valid records sensible)). Qed.

Lemma nobody_leaves_first (k : nat) :
  (k <= length events)%nat -> 0 <= occupancy events k.
Proof.
  intros Hk. destruct k as [|k]; [unfold occupancy; simpl; lia|].
  pose proof events_valid as Hv.
  set (x := nth k events nobody).
  assert (Vx : valid_event x) by (apply valid_nth; [exact Hv|lia]).
  assert (Vn : forall i, (i < length events)%nat ->
                 valid_event (nth i events nobody))
    by (intros; apply valid_nth; assumption).
  unfold occupancy.
  rewrite people_tally
    by (rewrite <- (firstn_skipn (S k) events) in Hv;
        apply Forall_app in Hv; tauto).
  set (P := firstn (S k) events). set (R := skipn (S k) events).
  assert (Hsplit : events = P ++ R) by (symmetry; apply firstn_skipn).
  assert (HP : forall e, In e P -> upto x e = true).
  { intros e He. apply (In_nth _ _ nobody) in He.
    destruct He as (i & Hi & <-). unfold P in *.
    rewrite length_firstn in Hi. rewrite nth_firstn.
    replace (i <? S k)%nat with true by (symmetry; apply Nat.ltb_lt; lia).
    unfold upto. apply Z.leb_le.
    destruct (Nat.eq_dec i k) as [->|N].
    - fold x. rewrite compareEvents_value by assumption.
      rewrite Z.eqb_refl. lia.
    - apply in_order. lia. }
  assert (HR : forall e, In e R -> below x e = false).
  { intros e He. apply (In_nth _ _ nobody) in He.
    destruct He as (i & Hi & <-). unfold R in *.
    rewrite length_skipn in Hi. rewrite nth_skipn.
    unfold below. apply Z.ltb_ge.
    pose proof (in_order k (S k + i)%nat ltac:(lia)) as S1. fold x in S1.
    pose proof (compareEvents_value x (nth (S k + i)%nat events nobody) Vx
                  (Vn (S k + i)%nat ltac:(lia))) as E1.
    pose proof (compareEvents_value (nth (S k + i)%nat events nobody) x
                  (Vn (S k + i)%nat ltac:(lia)) Vx) as E2.
    rewrite E1 in S1. rewrite E2.
    destruct (Z.eqb_spec (time_in_minutes x)
                (time_in_minutes (nth (S k + i)%nat events nobody)));
      destruct (Z.eqb_spec
                  (time_in_minutes (nth (S k + i)%nat events nobody))
                  (time_in_minutes x)); lia. }
  assert (L1 : tally EVENT_LEAVE (fun _ => true) P
               <= tally EVENT_LEAVE (upto x) events).
  { rewrite Hsplit, tally_app.
    rewrite (tally_ext _ (fun _ => true) (upto x) P)
      by (intros e He; symmetry; apply HP, He).
    pose proof (tally_not_negative EVENT_LEAVE (upto x) R). lia. }
  assert (L2 : tally EVENT_ENTER (below x) events
               <= tally EVENT_ENTER (fun _ => true) P).
  { rewrite Hsplit, tally_app, (tally_none _ _ R HR).
    pose proof (tally_least EVENT_ENTER (below x) P). lia. }
  rewrite <- (tally_perm EVENT_LEAVE (upto x) _ _ shuffled) in L1.
  rewrite <- (tally_perm EVENT_ENTER (below x) _ _ shuffled) in L2.
  pose proof (built_paired records x Vx sensible). lia.
Qed.

Lemma everybody_leaves : occupancy events (length events) = 0.
Proof.
  unfold occupancy. rewrite firstn_all, (people_tally _ events_valid).
  rewrite <- (tally_perm EVENT_ENTER _ _ _ shuffled).
  rewrite <- (tally_perm EVENT_LEAVE _ _ _ shuffled).
  rewrite built_balanced. lia.
Qed.

Lemma events_well_formed :
  Z.of_nat (length records) <= MAX_RECORDS -> well_formed events.
Proof.
  intros H. split; [exact events_valid|].
  rewrite <- (Permutation_length shuffled), built_length.
  unfold MAX_EVENTS. lia.
Qed.

End Records.

(** X25.  From the records to the answer: when every record is an entry
    time and a later (or equal) leave time of the same day, and the
    event array holds the events of the records in the order of
    compareEvents (as qsort leaves it), the sweep ends with the
    largest number of people inside at once in [max_people] and with
    the longest, earliest stretch between two consecutive events
    during which that many were inside as the result interval. *)
Theorem busiest_interval_of_records
    (records : list (Z * Z * Z * Z)) (events : list Event) :
  records <> [] -> Forall valid_record records ->
  Z.of_nat (length records) <= MAX_RECORDS ->
  Permutation (flat_map events_of_record records) events ->
  sorted events ->
  (forall k, (k <= length events)%nat ->
             0 <= occupancy events k <= max_people (sweep events))
  /\ exists j,
      peak events (max_people (sweep events)) j
      /\ result_start_time (sweep events) = time_at events j
      /\ result_end_time (sweep events) = time_at events (S j)
      /\ (forall j', peak events (max_people (sweep events)) j' ->
                     gap events j' <= gap events j)
      /\ (forall j', (j' < j)%nat ->
                     peak events (max_people (sweep events)) j' ->
                     gap events j' < gap events j).
Proof.
  intros Hne Hv Hn Hperm Hs.
  pose proof (events_well_formed records Hv events Hperm Hn) as Hwf.
  pose proof (nobody_leaves_first records Hv events Hperm Hs) as Hnn.
  split.
  - intros k Hk. split; [apply Hnn, Hk|].
    pose proof (sweep_counted events Hwf (length events) (le_n _)) as C.
    rewrite firstn_all in C. destruct C as [_ Cb _]. apply Cb, Hk.
  - apply sweep_longest_peak; auto.
    + apply everybody_leaves with (records := records); assumption.
    + intros ->. apply Permutation_sym, Permutation_nil in Hperm.
      destruct records as [|[[[h1 m1] h2] m2] l]; [congruence|discriminate].
Qed.

Lemma busiest_interval_of_records_witness :
  0 <= occupancy busy_hour 2 <= max_people (sweep busy_hour).
Proof.
  apply (proj1 (busiest_interval_of_records
                  [(10, 0, 11, 40); (11, 0, 12, 0)] busy_hour
                  ltac:(discriminate)
                  ltac:(repeat constructor; simpl; lia)
                  ltac:(simpl; unfold MAX_RECORDS; lia)
                  ltac:(simpl; apply perm_skip, perm_swap)
                  busy_hour_sorted)).
  simpl. lia.
Defined.
End JournalFacts.
